(** * light-browser: escalation engine, token truncation and semantic filter

    A shallow embedding of the core of the light-browser repository:
    - [src/utils/errors.ts]      (module [Errors]),
    - [src/utils/tokens.ts]      (module [Tokens]),
    - [src/core/engine/*.ts]     (module [Engine]),
    - the semantic search module (module [Semantic]).

    Conventions of the embedding.
    - A JavaScript string is a [string]; each [ascii] stands for one UTF-16
      code unit below 256, so [String.length] is the [.length] of the source.
    - Integral JavaScript numbers (tiers, token counts, budgets, indices)
      are [Z]; similarity scores are IEEE-754 doubles, modelled by Rocq's
      primitive [float]s.
    - A thrown exception is the [Err] case of a result type.
    - The network, the DOM engines and the embedding model are outside the
      repository: they appear as oracles (section variables) and every call
      to them is recorded in an explicit trace. *)

From Stdlib Require Import ZArith String Ascii List Bool Lia Floats Sorted.
From stdpp Require Import base tactics option list gmap strings pretty.

Set Warnings "-register-all".

Local Open Scope string_scope.
Local Open Scope list_scope.
Local Open Scope Z_scope.

(** ** JavaScript string primitives *)

Module Str.

(** [String.prototype.includes]. *)
Fixpoint includes (needle hay : string) : bool :=
  String.prefix needle hay ||
  match hay with
  | EmptyString => false
  | String _ hay' => includes needle hay'
  end.

Definition lowerUnit (c : ascii) : ascii :=
  let n := nat_of_ascii c in
  if ((65 <=? n)%nat && (n <=? 90)%nat)
     || ((192 <=? n)%nat && (n <=? 222)%nat && negb (n =? 215)%nat)
  then ascii_of_nat (n + 32) else c.

(** [String.prototype.toLowerCase] on code units below 256. *)
Fixpoint toLowerCase (s : string) : string :=
  match s with
  | EmptyString => EmptyString
  | String c s' => String (lowerUnit c) (toLowerCase s')
  end.

(** White space and line terminators of ECMAScript below 256:
    TAB, LF, VT, FF, CR, SP and NBSP. *)
Definition isSpace (c : ascii) : bool :=
  let n := nat_of_ascii c in
  ((9 <=? n)%nat && (n <=? 13)%nat) || (n =? 32)%nat || (n =? 160)%nat.

Fixpoint trimStart (s : string) : string :=
  match s with
  | EmptyString => EmptyString
  | String c s' => if isSpace c then trimStart s' else s
  end.

Fixpoint trimEnd (s : string) : string :=
  match s with
  | EmptyString => EmptyString
  | String c s' =>
      match trimEnd s' with
      | EmptyString => if isSpace c then EmptyString else String c EmptyString
      | r => String c r
      end
  end.

(** [String.prototype.trim]. *)
Definition trim (s : string) : string := trimEnd (trimStart s).

Definition len (s : string) : Z := Z.of_nat (String.length s).

Fixpoint take (n : nat) (s : string) : string :=
  match n, s with
  | S n', String c s' => String c (take n' s')
  | _, _ => EmptyString
  end.

Fixpoint drop (n : nat) (s : string) : string :=
  match n, s with
  | S n', String _ s' => drop n' s'
  | _, _ => s
  end.

(** The relative index of [slice]: negative counts from the end. *)
Definition relIndex (l i : Z) : Z :=
  if i <? 0 then Z.max (l + i) 0 else Z.min i l.

(** [s.slice(from, to)]. *)
Definition slice (s : string) (from to : Z) : string :=
  let l := len s in
  let a := relIndex l from in
  let b := relIndex l to in
  take (Z.to_nat (b - a)) (drop (Z.to_nat a) s).

(** [s.slice(from)]. *)
Definition sliceFrom (s : string) (from : Z) : string :=
  slice s from (len s).

Definition newline : ascii := ascii_of_nat 10.

Definition startsWithNewline (s : string) : bool :=
  match s with
  | String c _ => Ascii.eqb c newline
  | EmptyString => false
  end.

(** [s.split(/\n\n+/)]: the pieces between maximal runs of two or more
    line feeds.  [inSep] is set while such a run is being consumed. *)
Fixpoint splitParagraphsFrom (inSep : bool) (s : string) : list string :=
  match s with
  | EmptyString => [EmptyString]
  | String c s' =>
      if inSep && Ascii.eqb c newline then splitParagraphsFrom true s'
      else if Ascii.eqb c newline && startsWithNewline s'
      then EmptyString :: splitParagraphsFrom true s'
      else match splitParagraphsFrom false s' with
           | p :: ps => String c p :: ps
           | [] => [String c EmptyString]
           end
  end.

Definition splitParagraphs (s : string) : list string :=
  splitParagraphsFrom false s.

(** [Array.prototype.join]. *)
Fixpoint join (sep : string) (parts : list string) : string :=
  match parts with
  | [] => EmptyString
  | [p] => p
  | p :: ps => p +:+ sep +:+ join sep ps
  end.

(** Template-literal rendering of an integer. *)
Definition ofZ (z : Z) : string := pretty z.

End Str.

(** ** Array primitives *)

Module Arr.

Section Sort.
Context {A : Type}.
(** [after a b] holds when the comparator of the source returns a
    positive number on [(a, b)], that is when [a] must come after [b]. *)
Variable after : A -> A -> bool.

Fixpoint insertSorted (x : A) (l : list A) : list A :=
  match l with
  | [] => [x]
  | y :: l' => if after x y then y :: insertSorted x l' else x :: l
  end.

(** [Array.prototype.sort(cmp)]: the stable sort that ECMAScript
    prescribes for a consistent comparator. *)
Fixpoint sort (l : list A) : list A :=
  match l with
  | [] => []
  | x :: l' => insertSorted x (sort l')
  end.
End Sort.

(** [arr.slice(0, to)]. *)
Definition sliceTo {A : Type} (l : list A) (to : Z) : list A :=
  firstn (Z.to_nat (Str.relIndex (Z.of_nat (length l)) to)) l.

End Arr.

(** ** [src/core/types.ts] *)

Module Types.

(** [enum EngineTier]: a tier is a number at run time. *)
Definition EngineTier := Z.
Definition CHEERIO : EngineTier := 1.
Definition JSDOM : EngineTier := 2.
Definition PLAYWRIGHT : EngineTier := 3.

Inductive ErrorCode :=
| NETWORK_ERROR | DNS_ERROR | TIMEOUT | SSL_ERROR
| HTTP_CLIENT_ERROR | HTTP_SERVER_ERROR
| JS_ERROR | RESOURCE_BLOCKED
| PARSE_ERROR | ENCODING_ERROR | EXTRACTION_ERROR
| SESSION_NOT_FOUND | SESSION_EXPIRED.

Definition isHttpCode (c : ErrorCode) : bool :=
  match c with
  | HTTP_CLIENT_ERROR | HTTP_SERVER_ERROR => true
  | _ => false
  end.

(** The [type] field of [StructuredContent]. *)
Inductive ContentType :=
| heading | paragraph | list_ | table | blockquote | code | image | link.

Definition typeName (t : ContentType) : string :=
  match t with
  | heading => "heading"
  | paragraph => "paragraph"
  | list_ => "list"
  | table => "table"
  | blockquote => "blockquote"
  | code => "code"
  | image => "image"
  | link => "link"
  end.

(** [interface StructuredContent].  An absent [children] is the empty
    list: the source only ever iterates over it. *)
Inductive StructuredContent := mkContent {
  type : ContentType;
  level : option Z;
  text : option string;
  children : list StructuredContent;
  attrs : list (string * string)
}.

(** [PageResult], reduced to the fields the engine reads or writes. *)
Record PageResult := mkPage {
  url : string;
  html : string;
  statusCode : Z;
  tierUsed : EngineTier
}.

End Types.

(** ** [src/utils/tokens.ts] *)

Module Tokens.
Import Types.

(** [estimateTokens]: [Math.ceil(text.length / 4)], 0 for the empty text. *)
Definition estimateTokens (text : string) : Z :=
  match text with
  | EmptyString => 0
  | _ => (Str.len text + 3) / 4
  end.

Definition CONTENT_PRIORITY : gmap string Z :=
  list_to_map
    [("heading", 100); ("h1", 100); ("h2", 90); ("h3", 80); ("h4", 70);
     ("h5", 60); ("h6", 50); ("paragraph", 40); ("list", 35);
     ("list-item", 30); ("blockquote", 25); ("code", 20); ("table", 15);
     ("link", 10); ("image", 5)].

(** [getContentText]: the node's text followed by the texts of its
    children, separated by blanks, trimmed at every level. *)
Fixpoint getContentText (item : StructuredContent) : string :=
  let fix loop (acc : string) (cs : list StructuredContent) : string :=
    match cs with
    | [] => acc
    | child :: cs' => loop (acc +:+ " " +:+ getContentText child) cs'
    end in
  Str.trim (loop (default EmptyString (text item)) (children item)).

(** [a ?? b]. *)
Definition orElse {A : Type} (a : option A) (b : A) : A := default b a.

(** [getPriority]: a heading with a non-zero level is looked up as
    [h<level>], falling back to the [heading] entry. *)
Definition getPriority (ty : ContentType) (lvl : option Z) : Z :=
  match ty, lvl with
  | heading, Some l =>
      if l =? 0 then orElse (CONTENT_PRIORITY !! "heading") 0
      else orElse (CONTENT_PRIORITY !! ("h" +:+ Str.ofZ l))
                  (orElse (CONTENT_PRIORITY !! "heading") 0)
  | _, _ => orElse (CONTENT_PRIORITY !! typeName ty) 0
  end.

Inductive Content :=
| Nodes (nodes : list StructuredContent)
| Text (s : string).

Record TruncationResult := mkResult {
  content : Content;
  originalTokens : Z;
  returnedTokens : Z;
  truncated : bool;
  itemsOmitted : Z
}.

(** The elements of the [itemsWithTokens] and [sortedItems] arrays. *)
Record Item := mkItem {
  item : StructuredContent;
  tokens : Z;
  itemText : string;
  priority : Z;
  originalIndex : nat
}.

Record ContentOptions := mkContentOptions {
  priorityOrder : option (list string);
  addIndicator : option bool
}.

Definition measure (idx : nat) (it : StructuredContent) : Item :=
  let t := getContentText it in
  mkItem it (estimateTokens t) t (getPriority (type it) (level it)) idx.

(** [new Map(order.map((type, idx) => [type, 1000 - idx]))]: a later
    entry for the same key replaces an earlier one. *)
Definition priorityMap (order : list string) : gmap string Z :=
  foldl (fun m kv => <[kv.1 := kv.2]> m) ∅
        (imap (fun idx ty => (ty, 1000 - Z.of_nat idx)) order).

Definition applyCustomPriority (order : option (list string)) (it : Item) : Item :=
  match order with
  | None => it
  | Some o =>
      match priorityMap o !! typeName (type (item it)) with
      | Some p => mkItem (item it) (tokens it) (itemText it) p (originalIndex it)
      | None => it
      end
  end.

(** The comparator of the sort: priority descending, then index ascending. *)
Definition compareItems (a b : Item) : Z :=
  if negb (priority b =? priority a) then priority b - priority a
  else Z.of_nat (originalIndex a) - Z.of_nat (originalIndex b).

Definition itemAfter (a b : Item) : bool := 0 <? compareItems a b.

(** The greedy loop over the sorted items: the state is the set of
    selected indices and the tokens used so far. *)
Definition greedyStep (maxTokens indicatorTokens : Z)
    (st : gset nat * Z) (it : Item) : gset nat * Z :=
  let '(selected, used) := st in
  if used + tokens it + indicatorTokens <=? maxTokens
  then ({[originalIndex it]} ∪ selected, used + tokens it)
  else st.

Definition greedy (maxTokens indicatorTokens : Z) (sorted : list Item) : gset nat * Z :=
  foldl (greedyStep maxTokens indicatorTokens) (∅, 0) sorted.

(** The rebuild loop: [content[i]] for each selected [i], in index order. *)
Fixpoint keepSelected (selected : gset nat) (i : nat)
    (nodes : list StructuredContent) : list StructuredContent :=
  match nodes with
  | [] => []
  | x :: rest =>
      if decide (i ∈ selected) then x :: keepSelected selected (S i) rest
      else keepSelected selected (S i) rest
  end.

Definition indicatorNode (omitted : Z) : StructuredContent :=
  mkContent paragraph None
    (Some ("[... " +:+ Str.ofZ omitted +:+ " more items truncated due to token limit ...]"))
    [] [].

Definition truncateContent (nodes : list StructuredContent) (maxTokens : Z)
    (options : option ContentOptions) : TruncationResult :=
  let addInd := orElse (options ≫= addIndicator) true in
  let itemsWithTokens := imap measure nodes in
  let original := foldl (fun acc it => acc + tokens it) 0 itemsWithTokens in
  if original <=? maxTokens then
    mkResult (Nodes nodes) original original false 0
  else
    let prioritized :=
      map (applyCustomPriority (options ≫= priorityOrder)) itemsWithTokens in
    let sortedItems := Arr.sort itemAfter prioritized in
    let indicatorTokens := if addInd then 20 else 0 in
    let '(selectedIndices, usedTokens) := greedy maxTokens indicatorTokens sortedItems in
    let truncatedContent := keepSelected selectedIndices 0 nodes in
    let omitted := Z.of_nat (length nodes) - Z.of_nat (length truncatedContent) in
    if addInd && (0 <? omitted) then
      mkResult (Nodes (truncatedContent ++ [indicatorNode omitted]))
               original (usedTokens + indicatorTokens) true omitted
    else
      mkResult (Nodes truncatedContent) original usedTokens true omitted.

Inductive TextMode := ModeEnd | ModeMiddle | ModeSmart.

Record TextOptions := mkTextOptions {
  mode : option TextMode;
  indicator : option string
}.

Definition nl2 : string := String Str.newline (String Str.newline EmptyString).

(** The loop of the [smart] mode: whole paragraphs while they fit,
    stopping at the first one that does not. *)
Fixpoint smartLoop (maxTokens indicatorTokens : Z) (paragraphs : list string)
    (result : string) (used : Z) : string :=
  match paragraphs with
  | [] => result
  | para :: rest =>
      let paraTokens := estimateTokens (para +:+ nl2) in
      if used + paraTokens + indicatorTokens <=? maxTokens
      then smartLoop maxTokens indicatorTokens rest (result +:+ para +:+ nl2)
                     (used + paraTokens)
      else result
  end.

Definition truncateText (text : string) (maxTokens : Z)
    (options : option TextOptions) : TruncationResult :=
  let md := orElse (options ≫= mode) ModeEnd in
  let ind := orElse (options ≫= indicator) (nl2 +:+ "... [truncated]") in
  let original := estimateTokens text in
  if original <=? maxTokens then
    mkResult (Text text) original original false 0
  else
    let indicatorTokens := estimateTokens ind in
    let availableTokens := maxTokens - indicatorTokens in
    let maxChars := availableTokens * 4 in
    let truncatedText :=
      match md with
      | ModeMiddle =>
          let halfChars := maxChars / 2 in
          Str.slice text 0 halfChars
            +:+ nl2 +:+ "... [content truncated] ..." +:+ nl2
            +:+ Str.sliceFrom text (- halfChars)
      | ModeSmart =>
          Str.trim (smartLoop maxTokens indicatorTokens
                      (Str.splitParagraphs text) EmptyString 0) +:+ ind
      | ModeEnd => Str.slice text 0 maxChars +:+ ind
      end in
    mkResult (Text truncatedText) original (estimateTokens truncatedText) true 0.



(** The token estimate of a content value, as each entry point computes
    it before deciding whether to truncate. *)
Definition estimate (c : Content) : Z :=
  match c with
  | Text s => estimateTokens s
  | Nodes nodes => foldl (fun acc it => acc + tokens it) 0 (imap measure nodes)
  end.

(** The sum of the token estimates of a list of items. *)
Definition sumTokens (l : list Item) : Z :=
  foldr (fun it acc => tokens it + acc) 0 l.

(** The allowance reserved for the indicator: [addIndicator ? 20 : 0]. *)
Definition reserveOf (o : option ContentOptions) : Z :=
  if orElse (o ≫= addIndicator) true then 20 else 0.

(** The [sortedItems] array of [truncateContent]. *)
Definition sortedItemsOf (nodes : list StructuredContent) (o : option ContentOptions)
    : list Item :=
  Arr.sort itemAfter (map (applyCustomPriority (o ≫= priorityOrder)) (imap measure nodes)).

End Tokens.

(** ** [src/utils/errors.ts] *)

Module Errors.
Import Types.

(** [class BrowserError]; [details] and [cause] carry no control
    information and are left out. *)
Record BrowserError := mkError {
  code : ErrorCode;
  message : string;
  recoverable : bool;
  suggestion : option string
}.

(** What a [catch] clause can receive: a [BrowserError], another
    [Error] with its [name] and [message], or a value that is no [Error]
    (given by its [String(...)] rendering). *)
Inductive Thrown :=
| ThrownBrowser (e : BrowserError)
| ThrownError (name msg : string)
| ThrownValue (rendered : string).

Inductive Result (A : Type) :=
| Ok (a : A)
| Err (e : Thrown).
Arguments Ok {A} a.
Arguments Err {A} e.

Definition timeoutError (url : string) (timeoutMs : Z) : BrowserError :=
  mkError TIMEOUT
    ("Request to " +:+ url +:+ " timed out after " +:+ Str.ofZ timeoutMs +:+ "ms")
    true (Some "Try again or increase the timeout").

Definition clientMessages : gmap Z string :=
  list_to_map
    [(400, "Bad Request");
     (401, "Unauthorized - authentication required");
     (403, "Forbidden - access denied");
     (404, "Page not found");
     (429, "Too many requests - rate limited")].

Definition httpClientError (status : Z) (url : string) : BrowserError :=
  let msg := default ("HTTP " +:+ Str.ofZ status +:+ " error") (clientMessages !! status) in
  mkError HTTP_CLIENT_ERROR (msg +:+ " for " +:+ url)
    (status =? 429)
    (if status =? 429 then Some "Wait a moment and try again"
     else if status =? 404 then Some "Check that the URL is correct"
     else None).

Definition httpServerError (status : Z) (url : string) : BrowserError :=
  mkError HTTP_SERVER_ERROR
    ("Server error (" +:+ Str.ofZ status +:+ ") for " +:+ url)
    true (Some "The server may be temporarily unavailable. Try again later.").

(** [isNetworkError], on the message of an [Error]. *)
Definition isNetworkError (msg : string) : bool :=
  let m := Str.toLowerCase msg in
  Str.includes "fetch" m || Str.includes "network" m
  || Str.includes "econnrefused" m || Str.includes "enotfound" m
  || Str.includes "etimedout" m || Str.includes "socket" m.

(** [wrapError]: a [BrowserError] is returned as it is, an [Error] is
    classified by the words of its message. *)
Definition wrapError (error : Thrown) : BrowserError :=
  match error with
  | ThrownBrowser e => e
  | ThrownError _ msg =>
      let m := Str.toLowerCase msg in
      if Str.includes "enotfound" m || Str.includes "getaddrinfo" m
      then mkError DNS_ERROR msg false None
      else if Str.includes "etimedout" m || Str.includes "timeout" m
      then mkError TIMEOUT msg true None
      else if Str.includes "ssl" m || Str.includes "certificate" m
      then mkError SSL_ERROR msg false None
      else if isNetworkError msg
      then mkError NETWORK_ERROR msg true None
      else mkError NETWORK_ERROR msg false None
  | ThrownValue rendered => mkError NETWORK_ERROR rendered false None
  end.

(** The words [wrapError] looks for do not occur in the message. *)
Definition unclassified (msg : string) : bool :=
  let m := Str.toLowerCase msg in
  negb (Str.includes "enotfound" m || Str.includes "getaddrinfo" m
        || Str.includes "etimedout" m || Str.includes "timeout" m
        || Str.includes "ssl" m || Str.includes "certificate" m
        || isNetworkError msg).

End Errors.

(** ** Regular expressions of the escalation heuristics *)

Module Markup.

Definition unitEqb (a b : ascii) : bool := Ascii.eqb a b.

(** Does [s] start with [pat], ignoring case (the [i] flag)? *)
Definition prefixCI (pat s : string) : bool :=
  String.prefix (Str.toLowerCase pat) (Str.toLowerCase s).

(** The text after the first [">"], if any: what [[^>]*>] consumes. *)
Fixpoint afterGt (s : string) : option string :=
  match s with
  | EmptyString => None
  | String c s' => if unitEqb c ">" then Some s' else afterGt s'
  end.

(** The lazy group [([\s\S]*?)] followed by [close]: the text before the
    first occurrence of [close]. *)
Fixpoint captureUntil (close s : string) : option string :=
  if prefixCI close s then Some EmptyString
  else match s with
       | EmptyString => None
       | String c s' => option_map (String c) (captureUntil close s')
       end.

(** [/<name[^>]*>([\s\S]*?)<\/name>/i.exec(html)]: the first capture
    group of the leftmost match. *)
Fixpoint elementMatch (name html : string) : option string :=
  let here :=
    if prefixCI ("<" +:+ name) html
    then afterGt (Str.drop (String.length ("<" +:+ name)) html)
           ≫= captureUntil ("</" +:+ name +:+ ">")
    else None in
  match here with
  | Some g => Some g
  | None =>
      match html with
      | EmptyString => None
      | String _ html' => elementMatch name html'
      end
  end.

(** Offset of the first occurrence of [pat] in [s], ignoring case. *)
Fixpoint findCI (pat s : string) : option nat :=
  if prefixCI pat s then Some O
  else match s with
       | EmptyString => None
       | String _ s' => option_map S (findCI pat s')
       end.

(** Length of the match of [/<name[\s\S]*?<\/name>/i] that starts at the
    head of [s]. *)
Definition blockMatchLength (name s : string) : option nat :=
  let opening := "<" +:+ name in
  let closing := "</" +:+ name +:+ ">" in
  if prefixCI opening s
  then option_map (fun k => (String.length opening + k + String.length closing)%nat)
                  (findCI closing (Str.drop (String.length opening) s))
  else None.

(** Offset of the first [">"]. *)
Fixpoint findGt (s : string) : option nat :=
  match s with
  | EmptyString => None
  | String c s' => if unitEqb c ">" then Some O else option_map S (findGt s')
  end.

(** Length of the match of [/<[^>]+>/] that starts at the head of [s]. *)
Definition tagMatchLength (s : string) : option nat :=
  match s with
  | String c s' =>
      if unitEqb c "<" then
        match findGt s' with
        | Some (S k) => Some (S (S (S k)))
        | _ => None
        end
      else None
  | EmptyString => None
  end.

(** [s.replace(re, '')] for a global regular expression given by the
    length of its match at each position; [skip] counts the code units
    of the current match that are still to be dropped. *)
Fixpoint removeMatches (matchLength : string -> option nat) (skip : nat)
    (s : string) : string :=
  match s with
  | EmptyString => EmptyString
  | String c s' =>
      match skip with
      | S k => removeMatches matchLength k s'
      | O =>
          match matchLength s with
          | Some (S k) => removeMatches matchLength k s'
          | _ => String c (removeMatches matchLength O s')
          end
      end
  end.

(** [s.replace(/<script[\s\S]*?<\/script>/gi, '')]. *)
Definition stripScripts (s : string) : string :=
  removeMatches (blockMatchLength "script") O s.

(** [s.replace(/<style[\s\S]*?<\/style>/gi, '')]. *)
Definition stripStyles (s : string) : string :=
  removeMatches (blockMatchLength "style") O s.

(** [s.replace(/<[^>]+>/g, '')]. *)
Definition stripTags (s : string) : string :=
  removeMatches tagMatchLength O s.

End Markup.

(** ** [src/core/engine]: tier fetchers, heuristics and the [Engine] class *)

Module Engine.
Import Types Errors Markup.

(** *** Heuristics *)

(** [needsJavaScript]: the text of the body once scripts, styles and
    tags are removed. *)
Definition visibleBodyText (body : string) : string :=
  Str.trim (stripTags (stripStyles (stripScripts body))).

(** The literal [id="<name>"]. *)
Definition idAttr (name : string) : string :=
  "id=" +:+ String (ascii_of_nat 34) name +:+ String (ascii_of_nat 34) EmptyString.

Definition spaIndicators : list string :=
  [idAttr "root"; idAttr "app"; "data-reactroot"; "__NEXT_DATA__";
   idAttr "app"; "v-cloak"; "__NUXT__";
   "ng-app"; "ng-version";
   "Loading..."; "Please enable JavaScript"; "requires JavaScript"; "noscript"].

(** [needsJavaScript] of [tier2-jsdom.ts]. *)
Definition needsJavaScript (html : string) : bool :=
  let htmlLower := Str.toLowerCase html in
  let hasIndicator :=
    existsb (fun ind => Str.includes (Str.toLowerCase ind) htmlLower) spaIndicators in
  match elementMatch "body" html with
  | Some (String c rest as body) =>
      if Str.len (visibleBodyText body) <? 100 then true else hasIndicator
  | _ => hasIndicator
  end.

(** First signal: a body that is short once its scripts are removed. *)
Definition signalShortBody (html : string) : bool :=
  match elementMatch "body" html with
  | Some body => Str.len (Str.trim (stripScripts body)) <? 100
  | None => false
  end.

(** Second signal: a [noscript] element with significant content. *)
Definition signalNoscript (html : string) : bool :=
  match elementMatch "noscript" html with
  | Some (String c rest as inner) => 50 <? Str.len (Str.trim inner)
  | _ => false
  end.

(** Third signal: root containers of single-page applications. *)
Definition signalSpaRoot (html : string) : bool :=
  Str.includes (idAttr "root") html
  || Str.includes (idAttr "app") html
  || Str.includes (idAttr "__next") html
  || Str.includes (idAttr "__nuxt") html
  || Str.includes "ng-app" html
  || Str.includes "data-reactroot" html.

Definition JS_REQUIRED_SIGNALS : list (string -> bool) :=
  [signalShortBody; signalNoscript; signalSpaRoot].

Definition detectJsRequired (html : string) : bool :=
  existsb (fun check => check html) JS_REQUIRED_SIGNALS || needsJavaScript html.

Definition complexIndicators : list string :=
  ["__NEXT_DATA__"; "__NUXT__"; "webpackJsonp"; "__webpack_require__";
   "customElements.define"; "attachShadow";
   "IntersectionObserver"; "requestIdleCallback"].

Definition detectNeedsFullBrowser (html : string) : bool :=
  existsb (fun ind => Str.includes ind html) complexIndicators.

(** [Engine.shouldEscalate]. *)
Definition shouldEscalate (html : string) (currentTier : EngineTier) : bool :=
  if currentTier =? CHEERIO then detectJsRequired html
  else if currentTier =? JSDOM then detectNeedsFullBrowser html
  else false.

(** *** The outside world *)

(** What the platform underneath a tier fetcher produces for a request:
    a response with its status, final URL and (rendered) markup, or an
    [Error] with its [name] and [message]. *)
Inductive Outcome :=
| Responded (status : Z) (finalUrl markup : string)
| Threw (name msg : string).

(** What the engine does to the outside world, in order. *)
Inductive Event :=
| Called (tier : EngineTier)
| Requested (tier : EngineTier).

Definition Trace := list Event.

Section World.
(** [new URL(url).protocol], [None] when the constructor throws. *)
Variable parseProtocol : string -> option string.
(** The platform request of each tier. *)
Variable net : EngineTier -> string -> Outcome.

(** The validation every tier fetcher starts with. *)
Definition validateUrl (url : string) : Result unit :=
  match parseProtocol url with
  | None => Err (ThrownBrowser (wrapError (ThrownError "Error" ("Invalid URL: " +:+ url))))
  | Some protocol =>
      if negb (String.eqb protocol "http:" || String.eqb protocol "https:")
      then Err (ThrownBrowser
                  (wrapError (ThrownError "Error" ("Unsupported protocol: " +:+ protocol))))
      else Ok tt
  end.

(** The [try] block of a tier fetcher: the platform request, then the
    status check. *)
Definition respond (tier : EngineTier) (url : string) : Result PageResult :=
  match net tier url with
  | Responded status finalUrl markup =>
      if (400 <=? status) && (status <? 500)
      then Err (ThrownBrowser (httpClientError status url))
      else if 500 <=? status
      then Err (ThrownBrowser (httpServerError status url))
      else Ok (mkPage finalUrl markup status tier)
  | Threw name msg => Err (ThrownError name msg)
  end.

(** [error.name] and [error.message] of a caught [Error]. *)
Definition errorName (e : Thrown) : option string :=
  match e with
  | ThrownBrowser _ => Some "BrowserError"
  | ThrownError name _ => Some name
  | ThrownValue _ => None
  end.

Definition errorMessage (e : Thrown) : option string :=
  match e with
  | ThrownBrowser b => Some (message b)
  | ThrownError _ msg => Some msg
  | ThrownValue _ => None
  end.

(** [error instanceof Error && error.name === 'AbortError']. *)
Definition isAbort (e : Thrown) : bool :=
  match errorName e with
  | Some name => String.eqb name "AbortError"
  | None => false
  end.

(** [error instanceof Error && error.message.includes('Timeout')]. *)
Definition mentionsTimeout (e : Thrown) : bool :=
  match errorMessage e with
  | Some msg => Str.includes "Timeout" msg
  | None => false
  end.

(** The [try]/[catch] of a tier fetcher; [isTimeout] is the test of
    its [catch] clause for an aborted request. *)
Definition request (tier : EngineTier) (isTimeout : Thrown -> bool)
    (url : string) (timeoutMs : Z) : Result PageResult :=
  match respond tier url with
  | Ok page => Ok page
  | Err e =>
      if isTimeout e
      then Err (ThrownBrowser (timeoutError url timeoutMs))
      else Err (ThrownBrowser (wrapError e))
  end.

Definition tierFetch (tier : EngineTier) (isTimeout : Thrown -> bool)
    (url : string) (timeoutMs : Z) (trace : Trace) : Trace * Result PageResult :=
  match validateUrl url with
  | Err e => (trace, Err e)
  | Ok _ => ((trace ++ [Requested tier])%list, request tier isTimeout url timeoutMs)
  end.

Definition cheerioFetch := tierFetch CHEERIO isAbort.
Definition jsdomFetch := tierFetch JSDOM isAbort.
Definition playwrightFetch := tierFetch PLAYWRIGHT mentionsTimeout.

(** *** The [Engine] class *)

(** The fields of an [Engine]: [options.maxTier], [options.autoEscalate]
    and [options.timeout], then [currentTier] and [usedPlaywright]. *)
Record State := mkState {
  maxTier : EngineTier;
  autoEscalate : bool;
  timeout : Z;
  currentTier : EngineTier;
  usedPlaywright : bool
}.

Definition withTier (s : State) (t : EngineTier) : State :=
  mkState (maxTier s) (autoEscalate s) (timeout s) t (usedPlaywright s).

Definition markPlaywright (s : State) : State :=
  mkState (maxTier s) (autoEscalate s) (timeout s) (currentTier s) true.

Definition unknownTier (tier : EngineTier) : BrowserError :=
  mkError NETWORK_ERROR ("Unknown engine tier: " +:+ Str.ofZ tier) false None.

Definition exhausted : BrowserError :=
  mkError NETWORK_ERROR "Failed to fetch with all available tiers" false None.

(** The [switch] of the loop body. *)
Definition attempt (s : State) (tier : EngineTier) (url : string) (trace : Trace)
    : State * Trace * Result PageResult :=
  if tier =? CHEERIO then
    let '(tr, r) := cheerioFetch url (timeout s) (trace ++ [Called tier])%list in (s, tr, r)
  else if tier =? JSDOM then
    let '(tr, r) := jsdomFetch url (timeout s) (trace ++ [Called tier])%list in (s, tr, r)
  else if tier =? PLAYWRIGHT then
    let '(tr, r) := playwrightFetch url (timeout s) (trace ++ [Called tier])%list in
    (markPlaywright s, tr, r)
  else (s, trace, Err (ThrownBrowser (unknownTier tier))).

(** The result of the tier fetcher of [tier], whatever the trace. *)
Definition attemptResult (timeoutMs : Z) (tier : EngineTier) (url : string)
    : Result PageResult :=
  (attempt (mkState tier false timeoutMs tier false) tier url []).2.

Definition isHttpError (e : Thrown) : bool :=
  match e with
  | ThrownBrowser b => isHttpCode (code b)
  | _ => false
  end.

Definition stamp (r : PageResult) (tier : EngineTier) : PageResult :=
  mkPage (url r) (html r) (statusCode r) tier.

(** The [while (tier <= maxTier)] loop of [fetch].  Each iteration
    consumes one unit of [fuel]; [None] means the fuel ran out. *)
Fixpoint fetchLoop (fuel : nat) (url : string) (s : State) (tier : EngineTier)
    (trace : Trace) : option (State * Trace * Result PageResult) :=
  if tier <=? maxTier s then
    match fuel with
    | O => None
    | S fuel' =>
        let '(s1, trace1, outcome) := attempt (withTier s tier) tier url trace in
        match outcome with
        | Ok result =>
            if autoEscalate s1 && (tier <? maxTier s1) && shouldEscalate (html result) tier
            then fetchLoop fuel' url s1 (tier + 1) trace1
            else Some (s1, trace1, Ok (stamp result tier))
        | Err error =>
            if isHttpError error then Some (s1, trace1, Err error)
            else if autoEscalate s1 && (tier <? maxTier s1)
            then fetchLoop fuel' url s1 (tier + 1) trace1
            else Some (s1, trace1, Err (ThrownBrowser (wrapError error)))
        end
    end
  else Some (s, trace, Err (ThrownBrowser exhausted)).

Definition startTier (s : State) : EngineTier :=
  if autoEscalate s then CHEERIO else maxTier s.

(** [Engine.fetch]: one unit of fuel per tier from the starting tier up
    to the ceiling. *)
Definition fetch (s : State) (url : string)
    : option (State * Trace * Result PageResult) :=
  let tier := startTier s in
  fetchLoop (Z.to_nat (maxTier s - tier + 1)) url (withTier s tier) tier [].

(** [Engine.setTier]. *)
Definition setTier (s : State) (tier : EngineTier) : Result State :=
  if maxTier s <? tier then
    Err (ThrownBrowser
           (mkError NETWORK_ERROR
              ("Cannot set tier " +:+ Str.ofZ tier +:+ " when maxTier is "
                 +:+ Str.ofZ (maxTier s))
              false None))
  else Ok (mkState (maxTier s) false (timeout s) tier (usedPlaywright s)).

(** The tiers whose fetcher was invoked, in order. *)
Definition calledTiers (trace : Trace) : list EngineTier :=
  omap (fun ev => match ev with Called t => Some t | Requested _ => None end) trace.

(** The tiers that went to the network, in order. *)
Definition requestedTiers (trace : Trace) : list EngineTier :=
  omap (fun ev => match ev with Requested t => Some t | Called _ => None end) trace.

End World.

(** *** The accessors of the [Engine] class *)

(** [Engine.getActiveTier]. *)
Definition getActiveTier (s : State) : EngineTier := currentTier s.

(** What [Engine.close] does to the browser that the third tier shares. *)
Inductive Cleanup := CloseBrowser.

(** [Engine.close]: the shared browser is closed only if the third tier
    was ever used. *)
Definition close (s : State) : list Cleanup :=
  if usedPlaywright s then [CloseBrowser] else [].

End Engine.

(** ** The semantic search module ([semanticSearch], [filterByQuery]) *)

Module Semantic.
Import Types Errors.

Definition Vector := list float.

(** [SIMILARITY_THRESHOLD = 0.3], as the double nearest to it. *)
Definition SIMILARITY_THRESHOLD : float := 0x1.3333333333333p-2%float.

(** [interface ContentChunk]. *)
Record ContentChunk := mkChunk {
  text : string;
  index : Z;
  type : option string;
  embedding : option Vector
}.

(** [interface SemanticSearchResult]. *)
Record SemanticSearchResult := mkMatch {
  chunk : ContentChunk;
  score : float
}.

Record SearchOptions := mkSearchOptions {
  topK : option Z;
  threshold : option float;
  precomputedEmbeddings : option (list Vector)
}.

(** [options?.topK ?? 10] and [options?.threshold ?? SIMILARITY_THRESHOLD]. *)
Definition topKOf (options : option SearchOptions) : Z :=
  default 10 (options ≫= topK).

Definition thresholdOf (options : option SearchOptions) : float :=
  default SIMILARITY_THRESHOLD (options ≫= threshold).

(** The accumulators of the loop of [cosineSimilarity]. *)
Fixpoint accumulate (a b : Vector) (dot normA normB : float) : float * float * float :=
  match a, b with
  | aVal :: a', bVal :: b' =>
      accumulate a' b' (dot + aVal * bVal)%float (normA + aVal * aVal)%float
                 (normB + bVal * bVal)%float
  | _, _ => (dot, normA, normB)
  end.

(** [cosineSimilarity]: throws on vectors of different lengths, is 0 when
    the product of the norms is (plus or minus) zero. *)
Definition cosineSimilarity (a b : Vector) : Result float :=
  if negb (length a =? length b)%nat
  then Err (ThrownError "Error" "Vectors must have same length")
  else
    let '(dot, normA, normB) := accumulate a b 0%float 0%float 0%float in
    let magnitude := (PrimFloat.sqrt normA * PrimFloat.sqrt normB)%float in
    if PrimFloat.eqb magnitude 0%float then Ok 0%float
    else Ok (dot / magnitude)%float.

(** The comparator of the final sort, [b.score - a.score], is positive. *)
Definition scoreAfter (a b : SemanticSearchResult) : bool :=
  PrimFloat.ltb 0%float (score b - score a)%float.

Section Provider.
(** The embedding model: text to vector.  Loading the model, batching
    and scheduling are outside the embedding; every text handed to the
    model is recorded, in order. *)
Variable extractor : string -> Vector.

Definition Calls := list string.

(** [embed]. *)
Definition embed (t : string) (calls : Calls) : Calls * Vector :=
  ((calls ++ [t])%list, extractor t).

(** [embedBatch]: no call at all for an empty array. *)
Definition embedBatch (texts : list string) (calls : Calls) : Calls * list Vector :=
  match texts with
  | [] => (calls, [])
  | _ => ((calls ++ texts)%list, map extractor texts)
  end.

(** The scoring loop of [semanticSearch]: [remaining] iterations from
    index [i] on. *)
Fixpoint scoreLoop (queryEmbedding : Vector) (thr : float)
    (chunks : list ContentChunk) (chunkEmbeddings : list Vector) (i : nat)
    (remaining : nat) (results : list SemanticSearchResult)
    : Result (list SemanticSearchResult) :=
  match remaining with
  | O => Ok results
  | S remaining' =>
      match chunks !! i, chunkEmbeddings !! i with
      | Some c, Some e =>
          match cosineSimilarity queryEmbedding e with
          | Err err => Err err
          | Ok s =>
              scoreLoop queryEmbedding thr chunks chunkEmbeddings (S i) remaining'
                (if PrimFloat.leb thr s then (results ++ [mkMatch c s])%list else results)
          end
      | _, _ => scoreLoop queryEmbedding thr chunks chunkEmbeddings (S i) remaining' results
      end
  end.

(** [semanticSearch]. *)
Definition semanticSearch (query : string) (chunks : list ContentChunk)
    (options : option SearchOptions) (calls : Calls)
    : Calls * Result (list SemanticSearchResult) :=
  let k := topKOf options in
  let thr := thresholdOf options in
  match chunks with
  | [] => (calls, Ok [])
  | _ =>
      let '(calls1, queryEmbedding) := embed query calls in
      let '(calls2, chunkEmbeddings) :=
        match options ≫= precomputedEmbeddings with
        | Some pre =>
            if (length pre =? length chunks)%nat then (calls1, pre)
            else embedBatch (map text chunks) calls1
        | None => embedBatch (map text chunks) calls1
        end in
      match scoreLoop queryEmbedding thr chunks chunkEmbeddings 0 (length chunks) [] with
      | Err err => (calls2, Err err)
      | Ok results => (calls2, Ok (Arr.sliceTo (Arr.sort scoreAfter results) k))
      end
  end.

(** Is the text present and longer than 10 once trimmed? *)
Definition chunkText (t : option string) : option string :=
  match t with
  | Some (String c rest as s) =>
      if 10 <? Str.len (Str.trim s) then Some (Str.trim s) else None
  | _ => None
  end.

(** The inner loop of [extractChunks] over the children of a node. *)
Fixpoint childChunks (cs : list StructuredContent) (index : Z)
    : list ContentChunk * Z :=
  match cs with
  | [] => ([], index)
  | child :: cs' =>
      match chunkText (Types.text child) with
      | Some t =>
          let '(rest, index') := childChunks cs' (index + 1) in
          (mkChunk t index (Some "list-item") None :: rest, index')
      | None => childChunks cs' index
      end
  end.

(** [extractChunks]. *)
Fixpoint extractChunksFrom (nodes : list StructuredContent) (index : Z)
    : list ContentChunk :=
  match nodes with
  | [] => []
  | item :: rest =>
      let '(own, index1) :=
        match chunkText (Types.text item) with
        | Some t => ([mkChunk t index (Some (typeName (Types.type item))) None], index + 1)
        | None => ([], index)
        end in
      let '(kids, index2) := childChunks (children item) index1 in
      (own ++ kids ++ extractChunksFrom rest index2)%list
  end.

Definition extractChunks (nodes : list StructuredContent) : list ContentChunk :=
  extractChunksFrom nodes 0.

(** [extractChunksFromText]. *)
Definition extractChunksFromText (t : string) : list ContentChunk :=
  imap (fun i p => mkChunk (Str.trim p) (Z.of_nat i) (Some "paragraph") None)
       (List.filter (fun p => 10 <? Str.len (Str.trim p)) (Str.splitParagraphs t)).

Record FilterOptions := mkFilterOptions {
  filterTopK : option Z;
  filterThreshold : option float
}.

Record FilterResult := mkFilterResult {
  filteredContent : string;
  results : list SemanticSearchResult;
  totalChunks : Z;
  matchedChunks : Z
}.

Definition searchOptions (o : FilterOptions) : SearchOptions :=
  mkSearchOptions (filterTopK o) (filterThreshold o) None.

(** The chunks of a content value, by its run-time shape. *)
Definition chunksOf (content : Tokens.Content) : list ContentChunk :=
  match content with
  | Tokens.Text s => extractChunksFromText s
  | Tokens.Nodes nodes => extractChunks nodes
  end.

(** [filterByQuery]. *)
Definition filterByQuery (content : Tokens.Content) (query : string)
    (options : option FilterOptions) (calls : Calls)
    : Calls * Result FilterResult :=
  let chunks := chunksOf content in
  match chunks with
  | [] =>
      (calls,
       Ok (mkFilterResult
             (match content with Tokens.Text s => s | Tokens.Nodes _ => EmptyString end)
             [] 0 0))
  | _ =>
      match semanticSearch query chunks (option_map searchOptions options) calls with
      | (calls1, Err err) => (calls1, Err err)
      | (calls1, Ok found) =>
          (calls1,
           Ok (mkFilterResult
                 (Str.join Tokens.nl2 (map (fun r => text (chunk r)) found))
                 found
                 (Z.of_nat (length chunks))
                 (Z.of_nat (length found))))
      end
  end.

End Provider.

(** *** Chunks of an HTML document *)

(** [s.split(/\n+/)]: the pieces between maximal runs of line feeds. *)
Fixpoint splitLinesFrom (inSep : bool) (s : string) : list string :=
  match s with
  | EmptyString => [EmptyString]
  | String c s' =>
      if Ascii.eqb c Str.newline then
        if inSep then splitLinesFrom true s'
        else EmptyString :: splitLinesFrom true s'
      else match splitLinesFrom false s' with
           | p :: ps => String c p :: ps
           | [] => [String c EmptyString]
           end
  end.

Definition splitLines (s : string) : list string := splitLinesFrom false s.

(** A chunk of type [text]. *)
Definition textChunk (t : string) (index : Z) : ContentChunk :=
  mkChunk t index (Some "text") None.

(** The grouping loop of [extractChunksFromHtml], followed by the final
    flush of the accumulated chunk: a line of more than 50 code units is a
    chunk of its own, shorter lines are joined by blanks until they exceed
    100. *)
Fixpoint groupLines (lines : list string) (chunks : list ContentChunk)
    (currentChunk : string) (index : Z) : list ContentChunk :=
  match lines with
  | [] =>
      if 10 <? Str.len currentChunk
      then (chunks ++ [textChunk (Str.trim currentChunk) index])%list
      else chunks
  | line :: rest =>
      if 50 <? Str.len line then
        if 10 <? Str.len currentChunk
        then groupLines rest
               (chunks ++ [textChunk (Str.trim currentChunk) index;
                           textChunk line (index + 1)])%list
               EmptyString (index + 2)
        else groupLines rest (chunks ++ [textChunk line index])%list
               currentChunk (index + 1)
      else
        let grown :=
          currentChunk
            +:+ match currentChunk with EmptyString => EmptyString | _ => " " end
            +:+ line in
        if 100 <? Str.len grown
        then groupLines rest (chunks ++ [textChunk (Str.trim grown) index])%list
               EmptyString (index + 1)
        else groupLines rest chunks grown index
  end.

Section Html.
(** [extractAllTextFromHtml]: the [convert] function of the html-to-text
    package with the options of the source; the package is outside the
    repository. *)
Variable extractAllTextFromHtml : string -> string.
Variable extractor : string -> Vector.

(** The [lines] array of [extractChunksFromHtml]. *)
Definition textLines (html : string) : list string :=
  List.filter (fun line => 10 <? Str.len line)
              (map Str.trim (splitLines (extractAllTextFromHtml html))).

(** [extractChunksFromHtml]. *)
Definition extractChunksFromHtml (html : string) : list ContentChunk :=
  groupLines (textLines html) [] EmptyString 0.

End Html.

End Semantic.

(** * Example inputs *)

Module Examples.
Import Types Errors Engine Semantic.

(** Two nodes from [tests/tokens.test.ts]. *)
Definition titleAndParagraph : list StructuredContent :=
  [mkContent heading None (Some "Title of the document") [] [];
   mkContent paragraph None
     (Some "This is a longer paragraph with more content that should exceed the budget.")
     [] []].

(** A stand-in for the URL parser on the example URLs: the scheme is the
    text up to the first colon. *)
Fixpoint schemeOf (url : string) : option string :=
  match url with
  | EmptyString => None
  | String c rest =>
      if Ascii.eqb c ":" then Some (String c EmptyString)
      else option_map (String c) (schemeOf rest)
  end.

(** A world in which every request is answered with the same status and
    markup. *)
Definition alwaysResponds (status : Z) (markup : string)
    (tier : EngineTier) (url : string) : Outcome :=
  Responded status url markup.

(** [createEngine(config)] with the default options. *)
Definition defaultEngine : State := mkState PLAYWRIGHT true 30000 CHEERIO false.

(** Two pages from [tests/engines.test.ts]. *)
Definition scriptOnlyPage : string :=
  "<html><body><script>app.init()</script></body></html>".

Definition staticPage : string :=
  "<html><head><title>Static</title></head><body><h1>Welcome</h1><p>This is a static page with lots of content that does not need JavaScript. It has plenty of text to read.</p></body></html>".

(** An embedding model on a handful of texts, with vectors whose cosines
    against the query are 0.8, 0 and 0.6. *)
Definition exampleExtractor (t : string) : Vector :=
  if String.eqb t "How much does it cost?" then [1; 0]%float
  else if String.eqb t "The price of this item is $99 with tax included" then [4; 3]%float
  else if String.eqb t "Free shipping on orders over $50" then [3; 4]%float
  else [0; 1]%float.

Definition storeChunks : list ContentChunk :=
  [mkChunk "Free shipping on orders over $50" 0 (Some "paragraph") None;
   mkChunk "Contact our support team for assistance" 1 (Some "paragraph") None;
   mkChunk "The price of this item is $99 with tax included" 2 (Some "paragraph") None].

Definition topTwo : option SearchOptions := Some (mkSearchOptions (Some 2) None None).

Definition storeSearch : Calls * Result (list SemanticSearchResult) :=
  Eval vm_compute in
    semanticSearch exampleExtractor "How much does it cost?" storeChunks topTwo [].

Definition storeFound : list SemanticSearchResult :=
  Eval vm_compute in match storeSearch.2 with Ok found => found | Err _ => [] end.

(** A threshold of 0.9, as the double nearest to it. *)
Definition strict : option FilterOptions :=
  Some (mkFilterOptions None (Some 0x1.ccccccccccccdp-1%float)).

End Examples.

(** * Vocabulary of the statements *)

(** *** IEEE-754 doubles as ordered numbers *)







(** *** Orders on results *)




(** *** Token truncation *)

Module TokensVocabulary.
Import Types Tokens.

(** [options?.indicator ?? '\n\n... [truncated]'] and
    [options?.mode ?? 'end'] of [truncateText]. *)
Definition indicatorOf (o : option TextOptions) : string :=
  orElse (o ≫= indicator) (nl2 +:+ "... [truncated]").

Definition modeOf (o : option TextOptions) : TextMode :=
  orElse (o ≫= mode) ModeEnd.

(** Paragraphs, each followed by a blank line: what the loop of the
    [smart] mode builds from the paragraphs it keeps. *)
Fixpoint blocks (paragraphs : list string) : string :=
  match paragraphs with
  | [] => EmptyString
  | p :: ps => p +:+ nl2 +:+ blocks ps
  end.

(** The priority under which [truncateContent] sorts a node: its default
    priority, or the one its type gets from [priorityOrder]. *)
Definition effectivePriority (o : option ContentOptions) (x : StructuredContent) : Z :=
  priority (applyCustomPriority (o ≫= priorityOrder) (measure 0 x)).

End TokensVocabulary.

(** *** The escalation loop *)

Module EngineVocabulary.
Import Types Errors Engine.

(** The test of the [catch] clause of the fetcher of [tier]. *)
Definition timeoutTest (tier : EngineTier) : Thrown -> bool :=
  if tier =? PLAYWRIGHT then mentionsTimeout else isAbort.

(** With auto-escalation on, does the outcome of [tier] send the loop on
    to the next tier (the ceiling permitting)? *)
Definition escalates (outcome : Result PageResult) (tier : EngineTier) : bool :=
  match outcome with
  | Ok page => shouldEscalate (html page) tier
  | Err e => negb (isHttpError e)
  end.

(** The events of one call of the fetcher of [tier]. *)
Definition tierEvents (parseProtocol : string -> option string)
    (tier : EngineTier) (url : string) : Trace :=
  if (1 <=? tier) && (tier <=? 3) then
    Called tier :: match validateUrl parseProtocol url with
                   | Ok _ => [Requested tier]
                   | Err _ => []
                   end
  else [].

(** The engine after the [switch] of an iteration at [tier]. *)
Definition afterAttempt (s : State) (tier : EngineTier) : State :=
  if tier =? PLAYWRIGHT then markPlaywright (withTier s tier) else withTier s tier.

(** What [fetch] makes of the outcome of the tier it stops at. *)
Definition finalOutcome (outcome : Result PageResult) (tier : EngineTier)
    : Result PageResult :=
  match outcome with
  | Ok page => Ok (stamp page tier)
  | Err e => Err e
  end.

End EngineVocabulary.

(** *** Chunks and searches *)

Module SemanticVocabulary.
Import Types Errors Semantic.

(** Are the precomputed embeddings of the options used as they are? *)
Definition usesPrecomputed (chunks : list ContentChunk) (options : option SearchOptions)
    : bool :=
  match options ≫= precomputedEmbeddings with
  | Some pre => (length pre =? length chunks)%nat
  | None => false
  end.

(** The [chunkEmbeddings] array of [semanticSearch]. *)
Definition embeddingsFor (extractor : string -> Vector) (chunks : list ContentChunk)
    (options : option SearchOptions) : list Vector :=
  if usesPrecomputed chunks options
  then default [] (options ≫= precomputedEmbeddings)
  else map extractor (map text chunks).

(** The result [r] is some chunk, scored against the query embedding. *)
Definition scoredFrom (queryEmbedding : Vector) (chunks : list ContentChunk)
    (chunkEmbeddings : list Vector) (r : SemanticSearchResult) : Prop :=
  exists (j : nat) (v : Vector),
    chunks !! j = Some (chunk r) /\ chunkEmbeddings !! j = Some v
    /\ cosineSimilarity queryEmbedding v = Ok (score r).

(** A chunk as every extractor builds it: a trimmed text of more than
    ten code units, with no embedding yet. *)
Definition wellFormedChunk (c : ContentChunk) : Prop :=
  10 < Str.len (text c) /\ Str.trim (text c) = text c /\ embedding c = None.

(** A string that is not empty and starts with no white space. *)
Definition headOk (s : string) : Prop :=
  match s with
  | String c _ => Str.isSpace c = false
  | EmptyString => False
  end.

(** A string that is not empty and that [trim] leaves alone. *)
Definition tight (s : string) : Prop := headOk s /\ Str.trimEnd s = s.

(** A line as [textLines] produces it: trimmed and longer than ten. *)
Definition lineOk (s : string) : Prop := tight s /\ 10 < Str.len s.

(** The texts still to be placed in chunks by the grouping loop: the
    accumulated chunk, if any, and the remaining lines. *)
Definition pending (currentChunk : string) (lines : list string) : list string :=
  match currentChunk with
  | EmptyString => lines
  | _ => currentChunk :: lines
  end.

(** The result of a filter that did not fail. *)
Definition resultOf (outcome : Calls * Result FilterResult) : FilterResult :=
  match outcome.2 with
  | Ok res => res
  | Err _ => mkFilterResult EmptyString [] 0 0
  end.

End SemanticVocabulary.

(** *** The words of the escalation trigger *)

(** [r] is [s] with some of its code units deleted. *)
Inductive Subseq : string -> string -> Prop :=
| subseq_nil : Subseq EmptyString EmptyString
| subseq_keep (c : ascii) (r s : string) : Subseq r s -> Subseq (String c r) (String c s)
| subseq_drop (c : ascii) (r s : string) : Subseq r s -> Subseq r (String c s).

Module Described.
Import Markup.


End Described.

(** *** More example inputs *)

Module Scenarios.
Import Types Errors Tokens Engine Semantic Examples.

Definition titleNode : StructuredContent :=
  mkContent heading None (Some "Title of the document") [] [].

Definition paragraphNode : StructuredContent :=
  mkContent paragraph None
    (Some "This is a longer paragraph with more content that should exceed the budget.")
    [] [].

Definition noIndicator : option ContentOptions :=
  Some (mkContentOptions None (Some false)).

Definition paragraphsFirst : option ContentOptions :=
  Some (mkContentOptions (Some ["paragraph"]) None).

(** A text of three paragraphs. *)
Definition essay : string :=
  "First paragraph of the essay." +:+ nl2
  +:+ "Second paragraph, somewhat longer than the first one." +:+ nl2
  +:+ "Third and last paragraph.".

Definition inMode (m : TextMode) : option TextOptions :=
  Some (mkTextOptions (Some m) None).

(** A world in which every request fails with the same [Error]. *)
Definition alwaysThrows (name msg : string) (tier : EngineTier) (url : string) : Outcome :=
  Threw name msg.

Definition fixedAtJsdom : State := mkState JSDOM false 30000 CHEERIO false.

Definition noTier : State := mkState 0 true 30000 CHEERIO false.

Definition noscriptPage : string :=
  "<html><body><noscript>Please enable scripts</noscript></body></html>".



Definition storeText : string :=
  "The price of this item is $99 with tax included" +:+ nl2
  +:+ "Free shipping on orders over $50".

Definition noteNode : StructuredContent :=
  mkContent paragraph None (Some "Short note.") [] [].

Definition closingNode : StructuredContent :=
  mkContent paragraph None
    (Some "A closing paragraph that is as long as the first one and does not fit either.")
    [] [].

(** A note, a title and two long paragraphs. *)
Definition article : list StructuredContent :=
  [noteNode; titleNode; paragraphNode; closingNode].




(** A page with a long text of its own and a short [noscript] element. *)
Definition longPageWithNoscript : string :=
  "<html><body><p>This page has plenty of text of its own, far more than a hundred characters of it, so that nothing about its body looks empty to the engine.</p><noscript>Scripts are off</noscript></body></html>".


End Scenarios.

(** * Properties *)

(** ** Arrays: the sort is a stable rearrangement *)

Section SortFacts.
Context {A : Type} (after : A -> A -> bool).

Lemma insertSorted_perm (x : A) (l : list A) :
  Arr.insertSorted after x l ≡ₚ x :: l.
Proof.
  induction l as [|y l IH]; simpl; [done|].
  destruct (after x y); [|done].
  rewrite IH. apply Permutation_swap.
Qed.

Lemma sort_perm (l : list A) : Arr.sort after l ≡ₚ l.
Proof.
  induction l as [|x l IH]; simpl; [done|].
  rewrite insertSorted_perm. by rewrite IH.
Qed.

Lemma sliceTo_sublist (l : list A) (k : Z) : Arr.sliceTo l k `sublist_of` l.
Proof. unfold Arr.sliceTo. apply sublist_take. Qed.

End SortFacts.

(** ** Token truncation *)

Section TokensFacts.
Import Types Tokens.

Lemma foldl_tokens (l : list Item) (z : Z) :
  foldl (fun acc it => acc + tokens it) z l = z + sumTokens l.
Proof.
  revert z. induction l as [|it l IH]; intros z; simpl; [lia|].
  rewrite IH. lia.
Qed.

Lemma sumTokens_perm (l1 l2 : list Item) :
  l1 ≡ₚ l2 -> sumTokens l1 = sumTokens l2.
Proof. induction 1; simpl; lia. Qed.

Lemma applyCustomPriority_tokens o it :
  tokens (applyCustomPriority o it) = tokens it.
Proof.
  unfold applyCustomPriority. destruct o as [o|]; [|done].
  by destruct (priorityMap o !! _).
Qed.

Lemma applyCustomPriority_index o it :
  originalIndex (applyCustomPriority o it) = originalIndex it.
Proof.
  unfold applyCustomPriority. destruct o as [o|]; [|done].
  by destruct (priorityMap o !! _).
Qed.


(** The indices carried by the measured items are the positions. *)
Lemma measured_indices (nodes : list StructuredContent) (i : nat) :
  map originalIndex (imap (fun j => measure (i + j)) nodes) = seq i (length nodes).
Proof.
  revert i. induction nodes as [|x nodes IH]; intros i; simpl; [done|].
  f_equal; [f_equal; lia|].
  rewrite <- IH. f_equal. apply imap_ext. intros j y _. simpl. f_equal. lia.
Qed.

Lemma prioritized_indices o (nodes : list StructuredContent) :
  map originalIndex (map (applyCustomPriority o) (imap measure nodes))
  = seq 0 (length nodes).
Proof.
  rewrite <- (measured_indices nodes 0), map_map.
  apply map_ext. intros it. apply applyCustomPriority_index.
Qed.

Section Greedy.
Variables maxTokens reserve : Z.

(** Only indices of the items that were offered get selected. *)
Lemma greedy_selects_offered (l : list Item) sel0 used0 sel used :
  foldl (greedyStep maxTokens reserve) (sel0, used0) l = (sel, used) ->
  forall i, i ∈ sel -> i ∈ sel0 \/ i ∈ map originalIndex l.
Proof.
  revert sel0 used0. induction l as [|it l IH]; intros sel0 used0 Hrun i Hi; simpl in *.
  - left. congruence.
  - destruct (used0 + tokens it + reserve <=? maxTokens).
    + destruct (IH _ _ Hrun i Hi) as [Hin|Hin].
      * apply elem_of_union in Hin as [Hin|Hin]; [|by left].
        apply elem_of_singleton in Hin. subst. right. left.
      * right. by right.
    + destruct (IH _ _ Hrun i Hi) as [Hin|Hin]; [by left|right; by right].
Qed.

(** The running total either never moved or left room for the
    indicator at the last accepted item. *)
Lemma greedy_budget (l : list Item) sel0 used0 sel used :
  foldl (greedyStep maxTokens reserve) (sel0, used0) l = (sel, used) ->
  used = used0 \/ used + reserve <= maxTokens.
Proof.
  revert sel0 used0. induction l as [|it l IH]; intros sel0 used0 Hrun; simpl in *.
  - left. congruence.
  - destruct (Z.leb_spec (used0 + tokens it + reserve) maxTokens) as [Hfit|Hno].
    + destruct (IH _ _ Hrun) as [->|Hle]; [|by right]. right. lia.
    + by apply IH in Hrun.
Qed.

End Greedy.

Lemma keepSelected_sublist sel i (nodes : list StructuredContent) :
  keepSelected sel i nodes `sublist_of` nodes.
Proof.
  revert i. induction nodes as [|x nodes IH]; intros i; simpl; [done|].
  destruct (decide (i ∈ sel)); [by apply sublist_skip|by apply sublist_cons].
Qed.



End TokensFacts.

Section TruncateContentFacts.
Import Types Tokens.

Lemma reserveOf_nonneg o : 0 <= reserveOf o.
Proof. unfold reserveOf. destruct (orElse _ _); lia. Qed.

(** The two paths of [truncateContent], with the state of the greedy
    loop made explicit on the truncating one. *)
Lemma truncateContent_paths nodes B o :
  let r := truncateContent nodes B o in
  (estimate (Nodes nodes) <= B /\ r = mkResult (Nodes nodes) (estimate (Nodes nodes))
                                         (estimate (Nodes nodes)) false 0)
  \/ (B < estimate (Nodes nodes) /\
      exists sel used,
        greedy B (reserveOf o) (sortedItemsOf nodes o) = (sel, used) /\
        let kept := keepSelected sel 0 nodes in
        let omitted := Z.of_nat (length nodes) - Z.of_nat (length kept) in
        truncated r = true /\ itemsOmitted r = omitted /\
        ((content r = Nodes kept /\ returnedTokens r = used)
         \/ (content r = Nodes (kept ++ [indicatorNode omitted])
             /\ returnedTokens r = used + reserveOf o
             /\ 0 < omitted))).
Proof.
  unfold truncateContent, estimate, reserveOf, sortedItemsOf. simpl.
  destruct (Z.leb_spec (foldl (fun acc it => acc + tokens it) 0 (imap measure nodes)) B)
    as [Hle|Hgt]; [by left|right].
  split; [done|].
  destruct (greedy B _ _) as [sel used] eqn:Hg.
  exists sel, used. split; [done|].
  destruct (orElse (o ≫= addIndicator) true); simpl.
  - destruct (Z.ltb_spec 0 (Z.of_nat (length nodes)
                              - Z.of_nat (length (keepSelected sel 0 nodes)))); simpl.
    + split; [done|]. split; [done|]. right. done.
    + split; [done|]. split; [done|]. left. done.
  - split; [done|]. split; [done|]. left. done.
Qed.





(** C5, as the code has it. The returned token count never exceeds the
    larger of the budget and the indicator allowance (20 when the
    indicator is enabled, 0 otherwise), hence it is within the budget as
    soon as the budget covers the allowance; and the returned nodes,
    leaving out the one indicator node appended when something was
    omitted, are a subsequence of the input in its original order. *)
Theorem truncateContent_budget_and_order
    (nodes : list StructuredContent) (B : Z) (o : option ContentOptions) :
  let r := truncateContent nodes B o in
  returnedTokens r <= Z.max B (reserveOf o)
  /\ (reserveOf o <= B -> returnedTokens r <= B)
  /\ exists kept,
       kept `sublist_of` nodes
       /\ (content r = Nodes kept
           \/ content r = Nodes (kept ++ [indicatorNode (itemsOmitted r)])).
Proof.
  intros r. subst r.
  pose proof (reserveOf_nonneg o) as Hres.
  destruct (truncateContent_paths nodes B o) as [[Hfit Heq]|[Hover Hrun]].
  - rewrite Heq. cbn [returnedTokens content itemsOmitted]. split; [lia|]. split; [lia|].
    exists nodes. split; [done|by left].
  - destruct Hrun as (sel & used & Hg & _ & Hom & Hshape).
    unfold greedy in Hg. apply greedy_budget in Hg.
    assert (returnedTokens (truncateContent nodes B o) <= Z.max B (reserveOf o)) as Hmax.
    { destruct Hshape as [[_ ->]|(_ & -> & _)]; lia. }
    split; [done|]. split; [lia|].
    exists (keepSelected sel 0 nodes). split; [apply keepSelected_sublist|].
    rewrite Hom. destruct Hshape as [[-> _]|(-> & _)]; [by left|by right].
Qed.

End TruncateContentFacts.



(** C5 as stated fails: with the indicator enabled (the default) and a
    budget of 5 tokens nothing fits, the indicator is appended all the
    same and the reported count is the 20-token allowance. *)
Lemma truncateContent_exceeds_small_budget :
  Tokens.returnedTokens (Tokens.truncateContent Examples.titleAndParagraph 5 None) = 20
  /\ ~ (Tokens.returnedTokens (Tokens.truncateContent Examples.titleAndParagraph 5 None) <= 5).
Proof. split; [vm_compute; reflexivity|vm_compute; intros H; apply H; reflexivity]. Qed.

(** C5, as the code has it, at a concrete input that is truncated: four
    nodes of 47 tokens under a budget of 30.  The title is selected first
    and the note second; they come back in their original order, the note
    before the title, followed by the indicator; the two long paragraphs
    are omitted and the count returned is 9 + 20. *)
Lemma truncateContent_budget_and_order_witness :
  Tokens.reserveOf None <= 30
  /\ 30 < Tokens.estimate (Tokens.Nodes Scenarios.article)
  /\ Tokens.truncated (Tokens.truncateContent Scenarios.article 30 None) = true
  /\ Tokens.content (Tokens.truncateContent Scenarios.article 30 None)
     = Tokens.Nodes ([Scenarios.noteNode; Scenarios.titleNode] ++ [Tokens.indicatorNode 2])
  /\ Tokens.returnedTokens (Tokens.truncateContent Scenarios.article 30 None) = 29
  /\ Tokens.returnedTokens (Tokens.truncateContent Scenarios.article 30 None) <= 30
  /\ exists kept,
       kept `sublist_of` Scenarios.article
       /\ (Tokens.content (Tokens.truncateContent Scenarios.article 30 None)
            = Tokens.Nodes kept
           \/ Tokens.content (Tokens.truncateContent Scenarios.article 30 None)
              = Tokens.Nodes
                  (kept ++ [Tokens.indicatorNode
                              (Tokens.itemsOmitted
                                 (Tokens.truncateContent Scenarios.article 30 None))])).
Proof.
  assert (Tokens.reserveOf None <= 30) as Hres by (vm_compute; discriminate).
  destruct (truncateContent_budget_and_order Scenarios.article 30 None)
    as (_ & Hfit & Hkept).
  split; [exact Hres|]. split; [vm_compute; reflexivity|].
  split; [vm_compute; reflexivity|]. split; [vm_compute; reflexivity|].
  split; [vm_compute; reflexivity|].
  split; [exact (Hfit Hres)|exact Hkept].
Defined.

(** ** Stripping only deletes *)

Section StripFacts.
Import Markup Engine.



Lemma Subseq_length (r s : string) :
  Subseq r s -> (String.length r <= String.length s)%nat.
Proof. induction 1; simpl; lia. Qed.








End StripFacts.

(** ** The escalation engine *)

Section EngineFacts.
Import Types Errors Markup Engine.
Variable parseProtocol : string -> option string.
Variable net : EngineTier -> string -> Outcome.

Lemma calledTiers_app (t1 t2 : Trace) :
  calledTiers (t1 ++ t2) = calledTiers t1 ++ calledTiers t2.
Proof. unfold calledTiers. apply omap_app. Qed.

Lemma requestedTiers_app (t1 t2 : Trace) :
  requestedTiers (t1 ++ t2) = requestedTiers t1 ++ requestedTiers t2.
Proof. unfold requestedTiers. apply omap_app. Qed.

Lemma tierFetch_spec tier isTimeout url timeoutMs trace :
  exists evs,
    tierFetch parseProtocol net tier isTimeout url timeoutMs trace
    = (trace ++ evs, (tierFetch parseProtocol net tier isTimeout url timeoutMs []).2)
    /\ calledTiers evs = [].
Proof.
  unfold tierFetch. destruct (validateUrl parseProtocol url).
  - exists [Requested tier]. done.
  - exists []. by rewrite app_nil_r.
Qed.

(** One iteration's call: the options are untouched, the trace grows by
    the call of [tier] (or by nothing for a tier outside the enumeration),
    and the result is that of the tier's fetcher. *)
Lemma attempt_spec s tier url trace :
  exists s1 evs,
    attempt parseProtocol net s tier url trace
    = (s1, trace ++ evs, attemptResult parseProtocol net (timeout s) tier url)
    /\ maxTier s1 = maxTier s /\ autoEscalate s1 = autoEscalate s
    /\ timeout s1 = timeout s
    /\ (calledTiers evs = [tier] \/ calledTiers evs = [])
    /\ (1 <= tier <= 3 -> calledTiers evs = [tier]).
Proof.
  unfold attemptResult, attempt, cheerioFetch, jsdomFetch, playwrightFetch.
  destruct (Z.eqb_spec tier CHEERIO);
    [|destruct (Z.eqb_spec tier JSDOM); [|destruct (Z.eqb_spec tier PLAYWRIGHT)]].
  all: cbn [timeout].
  - destruct (tierFetch_spec CHEERIO isAbort url (timeout s) (trace ++ [Called tier]))
      as (evs & -> & Hevs).
    destruct (tierFetch_spec CHEERIO isAbort url (timeout s) ([] ++ [Called tier]))
      as (evs' & -> & _).
    eexists _, ([Called tier] ++ evs). rewrite <- app_assoc. simpl.
    split; [reflexivity|]. repeat (split; [done|]). rewrite Hevs. split; [by left|done].
  - destruct (tierFetch_spec JSDOM isAbort url (timeout s) (trace ++ [Called tier]))
      as (evs & -> & Hevs).
    destruct (tierFetch_spec JSDOM isAbort url (timeout s) ([] ++ [Called tier]))
      as (evs' & -> & _).
    eexists _, ([Called tier] ++ evs). rewrite <- app_assoc. simpl.
    split; [reflexivity|]. repeat (split; [done|]). rewrite Hevs. split; [by left|done].
  - destruct (tierFetch_spec PLAYWRIGHT mentionsTimeout url (timeout s) (trace ++ [Called tier]))
      as (evs & -> & Hevs).
    destruct (tierFetch_spec PLAYWRIGHT mentionsTimeout url (timeout s) ([] ++ [Called tier]))
      as (evs' & -> & _).
    eexists _, ([Called tier] ++ evs). rewrite <- app_assoc. simpl.
    split; [reflexivity|]. repeat (split; [done|]). rewrite Hevs. split; [by left|done].
  - exists s, []. rewrite app_nil_r. simpl. repeat (split; [done|]).
    split; [by right|]. unfold CHEERIO, JSDOM, PLAYWRIGHT in *. lia.
Qed.

(** A tier that an iteration called is the tier of that iteration. *)
Ltac called_is_current Hcalled Ht :=
  let Hc := fresh "Hc" in
  destruct Hcalled as [Hc|Hc]; rewrite Hc in Ht; [|by apply elem_of_nil in Ht];
  apply list_elem_of_singleton in Ht; subst.

(** The loop, run with enough fuel, always terminates with a result; the
    tiers it calls lie between the current tier and the ceiling, in
    strictly increasing order; and an HTTP error of a called tier is the
    result of the whole loop, with no call above that tier. *)
Lemma fetchLoop_spec url fuel : forall s tier trace,
  maxTier s - tier + 1 <= Z.of_nat fuel ->
  exists s' evs r,
    fetchLoop parseProtocol net fuel url s tier trace = Some (s', trace ++ evs, r)
    /\ maxTier s' = maxTier s
    /\ Forall (fun t => tier <= t <= maxTier s) (calledTiers evs)
    /\ StronglySorted Z.lt (calledTiers evs)
    /\ (forall t e, t ∈ calledTiers evs ->
          attemptResult parseProtocol net (timeout s) t url = Err e -> isHttpError e = true ->
          r = Err e /\ Forall (fun t' => t' <= t) (calledTiers evs)).
Proof.
  induction fuel as [|fuel IH]; intros s tier trace Hfuel; simpl.
  - destruct (Z.leb_spec tier (maxTier s)); [lia|].
    exists s, [], (Err (ThrownBrowser exhausted)). rewrite app_nil_r.
    split; [done|]. split; [done|]. split; [constructor|]. split; [constructor|].
    intros t e Ht. by apply elem_of_nil in Ht.
  - destruct (Z.leb_spec tier (maxTier s)) as [Hle|Hgt].
    2:{ exists s, [], (Err (ThrownBrowser exhausted)). rewrite app_nil_r.
        split; [done|]. split; [done|]. split; [constructor|]. split; [constructor|].
        intros t e Ht. by apply elem_of_nil in Ht. }
    destruct (attempt_spec (withTier s tier) tier url trace)
      as (s1 & evs1 & -> & Hmax & Hauto & Htime & Hcalled & _).
    simpl in Hmax, Hauto, Htime.
    change (timeout (withTier s tier)) with (timeout s).
    assert (Forall (fun t => tier <= t <= maxTier s) (calledTiers evs1)
            /\ StronglySorted Z.lt (calledTiers evs1)
            /\ Forall (fun t => t <= tier) (calledTiers evs1)) as (Hrange1 & Hsorted1 & Hup1).
    { destruct Hcalled as [->| ->]; repeat split; repeat constructor; lia. }
    (* the three ways an iteration ends without looping *)
    assert (forall r : Result PageResult,
              (forall t e, t ∈ calledTiers evs1 ->
                 attemptResult parseProtocol net (timeout s) t url = Err e -> isHttpError e = true ->
                 r = Err e) ->
              exists s' evs r',
                Some (s1, trace ++ evs1, r) = Some (s', trace ++ evs, r')
                /\ maxTier s' = maxTier s
                /\ Forall (fun t => tier <= t <= maxTier s) (calledTiers evs)
                /\ StronglySorted Z.lt (calledTiers evs)
                /\ (forall t e, t ∈ calledTiers evs ->
                      attemptResult parseProtocol net (timeout s) t url = Err e -> isHttpError e = true ->
                      r' = Err e /\ Forall (fun t' => t' <= t) (calledTiers evs))) as Hstop.
    { intros r Hr. exists s1, evs1, r.
      split; [done|]. split; [done|]. split; [done|]. split; [done|].
      intros t e Ht He Hh. split; [by eapply Hr|].
      destruct Hcalled as [Hc|Hc]; rewrite Hc in *; [|by apply elem_of_nil in Ht].
      apply list_elem_of_singleton in Ht. subst. repeat constructor. lia. }
    (* the two ways it loops *)
    assert ((forall e, attemptResult parseProtocol net (timeout s) tier url = Err e -> isHttpError e = false) ->
            tier < maxTier s ->
            exists s' evs r,
              fetchLoop parseProtocol net fuel url s1 (tier + 1) (trace ++ evs1)
              = Some (s', trace ++ evs, r)
              /\ maxTier s' = maxTier s
              /\ Forall (fun t => tier <= t <= maxTier s) (calledTiers evs)
              /\ StronglySorted Z.lt (calledTiers evs)
              /\ (forall t e, t ∈ calledTiers evs ->
                    attemptResult parseProtocol net (timeout s) t url = Err e -> isHttpError e = true ->
                    r = Err e /\ Forall (fun t' => t' <= t) (calledTiers evs))) as Hloop.
    { intros Hnohttp Hlt.
      destruct (IH s1 (tier + 1) (trace ++ evs1)) as (s' & evs2 & r & -> & Hmax' & Hrange2 & Hsorted2 & Hhttp2);
        [lia|].
      rewrite Hmax, Htime in *.
      exists s', (evs1 ++ evs2), r. rewrite app_assoc, calledTiers_app.
      split; [done|]. split; [lia|].
      split. { apply Forall_app. split; [done|]. eapply Forall_impl; [exact Hrange2|]. simpl. lia. }
      split.
      { destruct Hcalled as [-> | ->]; simpl; [|done].
        constructor; [done|]. eapply Forall_impl; [exact Hrange2|]. simpl. lia. }
      intros t e Ht He Hh. apply elem_of_app in Ht as [Ht|Ht].
      - exfalso. called_is_current Hcalled Ht.
        rewrite (Hnohttp _ He) in Hh. discriminate.
      - destruct (Hhttp2 t e Ht He Hh) as [-> Hup2]. split; [done|].
        apply Forall_app. split; [|done].
        eapply Forall_impl; [exact Hup1|]. simpl. intros t' Ht'.
        rewrite Forall_forall in Hrange2. specialize (Hrange2 t Ht). lia. }
    rewrite Hmax, Hauto.
    destruct (attemptResult parseProtocol net (timeout s) tier url) as [page|error] eqn:Hres.
    + destruct (autoEscalate s && (tier <? maxTier s) && shouldEscalate (html page) tier) eqn:Hesc.
      * apply Hloop; [intros e; discriminate|].
        apply andb_prop in Hesc as [Hesc _]. apply andb_prop in Hesc as [_ Hesc]. lia.
      * apply Hstop. intros t e Ht He.
        called_is_current Hcalled Ht. congruence.
    + destruct (isHttpError error) eqn:Hhttp.
      * apply Hstop. intros t e Ht He _.
        called_is_current Hcalled Ht. congruence.
      * destruct (autoEscalate s && (tier <? maxTier s)) eqn:Hesc.
        -- apply Hloop; [intros e [= <-]; done|].
           apply andb_prop in Hesc as [_ Hesc]. lia.
        -- apply Hstop. intros t e Ht He Hh.
           called_is_current Hcalled Ht. congruence.
Qed.



(** An [Error] that [wrapError] classifies never gets an HTTP code. *)
Lemma wrapError_plain_not_http (name msg : string) :
  isHttpCode (code (wrapError (ThrownError name msg))) = false.
Proof.
  unfold wrapError.
  repeat match goal with |- context [if ?b then _ else _] => destruct b end; done.
Qed.

Lemma wrapError_unclassified (name msg : string) :
  unclassified msg = true ->
  wrapError (ThrownError name msg) = mkError NETWORK_ERROR msg false None.
Proof.
  unfold unclassified, wrapError. intros H. apply negb_true_iff in H.
  repeat (apply orb_false_elim in H as [H ?]).
  repeat match goal with Hb : ?b = false |- context [?b] => rewrite Hb end.
  done.
Qed.

Lemma validateUrl_unsupported (url p : string) :
  parseProtocol url = Some p -> p <> "http:" -> p <> "https:" ->
  validateUrl parseProtocol url
  = Err (ThrownBrowser (wrapError (ThrownError "Error" ("Unsupported protocol: " +:+ p)))).
Proof.
  intros Hp H1 H2. unfold validateUrl. rewrite Hp.
  apply String.eqb_neq in H1, H2. by rewrite H1, H2.
Qed.

(** A URL that the validation rejects: the fetcher of each of the three
    tiers is called and rejects it before any request. *)
Lemma attempt_rejected s tier url trace e :
  validateUrl parseProtocol url = Err e -> 1 <= tier <= 3 ->
  exists s1,
    attempt parseProtocol net s tier url trace = (s1, trace ++ [Called tier], Err e)
    /\ maxTier s1 = maxTier s /\ autoEscalate s1 = autoEscalate s.
Proof.
  intros Hval Htier.
  unfold attempt, cheerioFetch, jsdomFetch, playwrightFetch, tierFetch. rewrite Hval.
  destruct (Z.eqb_spec tier CHEERIO);
    [|destruct (Z.eqb_spec tier JSDOM); [|destruct (Z.eqb_spec tier PLAYWRIGHT)]].
  1-3: by eexists.
  unfold CHEERIO, JSDOM, PLAYWRIGHT in *. lia.
Qed.

Lemma fetchLoop_rejected url b fuel : forall s tier trace,
  validateUrl parseProtocol url = Err (ThrownBrowser b) ->
  isHttpCode (code b) = false ->
  1 <= tier -> tier <= maxTier s -> maxTier s <= 3 ->
  maxTier s - tier + 1 <= Z.of_nat fuel ->
  exists s',
    fetchLoop parseProtocol net fuel url s tier trace
    = Some (s',
            trace ++ map Called (if autoEscalate s
                                 then seqZ tier (maxTier s - tier + 1) else [tier]),
            Err (ThrownBrowser b)).
Proof.
  induction fuel as [|fuel IH]; intros s tier trace Hval Hcode H1 Hle H3 Hfuel; [lia|].
  simpl. destruct (Z.leb_spec tier (maxTier s)); [|lia].
  destruct (attempt_rejected (withTier s tier) tier url trace _ Hval)
    as (s1 & -> & Hmax & Hauto); [lia|].
  simpl in Hmax, Hauto. cbn [isHttpError]. rewrite Hcode, Hmax, Hauto.
  destruct (autoEscalate s) eqn:Has; simpl.
  - destruct (Z.ltb_spec tier (maxTier s)) as [Hlt|Hge].
    + destruct (IH s1 (tier + 1) (trace ++ [Called tier]) Hval Hcode) as (s' & ->);
        [lia..|].
      exists s'. rewrite Hauto, Hmax, <- app_assoc.
      rewrite (seqZ_cons tier) by lia. simpl.
      replace (Z.succ tier) with (tier + 1) by lia.
      replace (Z.pred (maxTier s - tier + 1)) with (maxTier s - (tier + 1) + 1) by lia.
      done.
    + exists s1. replace (maxTier s - tier + 1) with 1 by lia. done.
  - by exists s1.
Qed.

(** C1. Tier ordering: for every URL, every engine state (hence every
    ceiling C) and every behaviour of the outside world, a call of [fetch]
    returns, never invokes a tier fetcher above C, and invokes the tiers in
    strictly increasing order. *)
Theorem fetch_tiers_bounded_and_increasing (s : State) (url : string) :
  exists s' trace r,
    fetch parseProtocol net s url = Some (s', trace, r)
    /\ Forall (fun t => t <= maxTier s) (calledTiers trace)
    /\ StronglySorted Z.lt (calledTiers trace).
Proof.
  unfold fetch.
  destruct (fetchLoop_spec url (Z.to_nat (maxTier s - startTier s + 1))
              (withTier s (startTier s)) (startTier s) [])
    as (s' & evs & r & Hrun & _ & Hrange & Hsorted & _); [simpl; lia|].
  exists s', evs, r. split; [exact Hrun|]. split; [|done].
  eapply Forall_impl; [exact Hrange|]. simpl. lia.
Qed.

(** C2. HTTP errors are not retried: if the fetcher of a tier that the
    engine calls fails with an HTTP client (4xx) or server (5xx) error,
    that error is the outcome of [fetch] and no tier above it is called,
    whatever the ceiling and the auto-escalate setting. *)
Theorem http_error_stops_escalation
    (s s' : State) (url : string) (trace : Trace) (r : Result PageResult)
    (t : EngineTier) (e : Thrown) :
  fetch parseProtocol net s url = Some (s', trace, r) ->
  t ∈ calledTiers trace ->
  attemptResult parseProtocol net (timeout s) t url = Err e ->
  isHttpError e = true ->
  r = Err e /\ Forall (fun t' => t' <= t) (calledTiers trace).
Proof.
  unfold fetch. intros Hrun Ht He Hhttp.
  destruct (fetchLoop_spec url (Z.to_nat (maxTier s - startTier s + 1))
              (withTier s (startTier s)) (startTier s) [])
    as (s1 & evs & r1 & Hrun' & _ & _ & _ & Hstop); [simpl; lia|].
  rewrite Hrun in Hrun'. simpl in Hrun'. injection Hrun' as -> -> ->.
  by apply Hstop.
Qed.

(** C3, as the code has it. The engine has no URL check of its own: for a
    URL whose scheme is neither http nor https (and a ceiling among the
    three tiers), [fetch] fails with the classified error that [wrapError]
    builds from the message of the rejection, which is never an HTTP error;
    no tier sends a request; but the fetcher of every tier from the
    starting tier up to the ceiling is called and rejects the URL in turn.
    When the message contains none of the words [wrapError] looks for, the
    error has code [NETWORK_ERROR] and is not recoverable. *)
Theorem unsupported_scheme_rejected_by_each_tier (s : State) (url p : string) :
  parseProtocol url = Some p -> p <> "http:" -> p <> "https:" ->
  1 <= maxTier s <= 3 ->
  let b := wrapError (ThrownError "Error" ("Unsupported protocol: " +:+ p)) in
  (exists s' trace,
     fetch parseProtocol net s url = Some (s', trace, Err (ThrownBrowser b))
     /\ requestedTiers trace = []
     /\ calledTiers trace = seqZ (startTier s) (maxTier s - startTier s + 1))
  /\ isHttpCode (code b) = false
  /\ (unclassified ("Unsupported protocol: " +:+ p) = true ->
      code b = NETWORK_ERROR /\ recoverable b = false).
Proof.
  intros Hp H1 H2 Hmax b.
  pose proof (validateUrl_unsupported url p Hp H1 H2) as Hval. fold b in Hval.
  pose proof (wrapError_plain_not_http "Error" ("Unsupported protocol: " +:+ p)) as Hcode.
  fold b in Hcode.
  split; [|split; [done|]].
  - unfold fetch.
    destruct (fetchLoop_rejected url b (Z.to_nat (maxTier s - startTier s + 1))
                (withTier s (startTier s)) (startTier s) [] Hval Hcode)
      as (s' & Hrun); try (unfold startTier, CHEERIO; destruct (autoEscalate s); simpl; lia).
    eexists s', _. split; [exact Hrun|]. simpl.
    assert (forall l : list Z, requestedTiers (map Called l) = []
                               /\ calledTiers (map Called l) = l) as Hmap.
    { induction l as [|x l [IH1 IH2]]; [done|]. split; [exact IH1|].
      unfold calledTiers in *. simpl. by f_equal. }
    unfold startTier. destruct (autoEscalate s); [apply Hmap|].
    replace (maxTier s - maxTier s + 1) with 1 by lia. apply (Hmap [maxTier s]).
  - intros Hplain. subst b. by rewrite (wrapError_unclassified _ _ Hplain).
Qed.


(** C4, the parts that hold: [setTier] with a tier above the ceiling
    fails, and otherwise records the tier and switches auto-escalation
    off. *)
Lemma setTier_spec (s : State) (tier : EngineTier) :
  (maxTier s < tier -> exists b, setTier s tier = Err (ThrownBrowser b))
  /\ (tier <= maxTier s ->
      exists s1, setTier s tier = Ok s1
                 /\ autoEscalate s1 = false /\ currentTier s1 = tier
                 /\ maxTier s1 = maxTier s).
Proof.
  unfold setTier. destruct (Z.ltb_spec (maxTier s) tier); split; intros; try lia.
  - by eexists.
  - by eexists.
Qed.

(** C4, where the code departs from it: after [setTier], the next [fetch]
    starts (and ends) at the ceiling, whatever tier was requested. *)
Lemma fetch_after_setTier_uses_ceiling (s s1 : State) (tier : EngineTier) (url : string) :
  setTier s tier = Ok s1 -> 1 <= maxTier s <= 3 ->
  exists s' trace r,
    fetch parseProtocol net s1 url = Some (s', trace, r)
    /\ calledTiers trace = [maxTier s].
Proof.
  unfold setTier. destruct (maxTier s <? tier); [done|]. intros [= <-] Hmax.
  unfold fetch, startTier. simpl.
  replace (Z.to_nat (maxTier s - maxTier s + 1)) with 1%nat by lia. simpl.
  destruct (Z.leb_spec (maxTier s) (maxTier s)); [|lia].
  match goal with
  | |- context [attempt parseProtocol net ?st (maxTier s) url []] =>
      destruct (attempt_spec st (maxTier s) url [])
        as (s2 & evs & -> & Hmax2 & Hauto2 & _ & _ & Hcalled)
  end.
  simpl in Hauto2. rewrite Hauto2. simpl.
  specialize (Hcalled Hmax).
  destruct (attemptResult _ _ _ (maxTier s) url) as [page|error].
  - by eexists _, _, _.
  - destruct (isHttpError error); by eexists _, _, _.
Qed.

End EngineFacts.

(** ** IEEE-754 doubles: comparison and the sign of a difference

    The comparator of the final sort of [semanticSearch] is a difference
    of doubles.  This section shows, from the specification of the
    primitive floats, that on numbers (anything but NaN) the sign of the
    rounded difference agrees with the comparison. *)

Section FloatOrder.







(** *** The sign of a rounded difference *)















End FloatOrder.

(** ** Sorting by an integer key *)

Section SortByKey.
Context {A : Type} (after : A -> A -> bool) (key : A -> Z) (P : A -> Prop).
Hypothesis after_key : forall a b, P a -> P b -> after a b = (key a <? key b).


End SortByKey.

Lemma Forall_of_sublist {A : Type} (Q : A -> Prop) (l1 l2 : list A) :
  l1 `sublist_of` l2 -> Forall Q l2 -> Forall Q l1.
Proof.
  induction 1 as [|x l1 l2 Hsub IH|x l1 l2 Hsub IH]; intros Hall; [done|..].
  - apply Forall_cons in Hall as [Hx Hall]. constructor; [done|by apply IH].
  - apply Forall_cons in Hall as [_ Hall]. by apply IH.
Qed.


(** ** The semantic search *)

Section SemanticFacts.
Import Types Errors Semantic.
Variable extractor : string -> Vector.


Lemma scoreLoop_no_match q thr chunks embs n : forall i acc,
  (forall j c e, chunks !! j = Some c -> embs !! j = Some e ->
     exists s, cosineSimilarity q e = Ok s /\ PrimFloat.leb thr s = false) ->
  scoreLoop q thr chunks embs i n acc = Ok acc.
Proof.
  induction n as [|n IH]; intros i acc Hnone; simpl; [done|].
  destruct (chunks !! i) as [c|] eqn:Hc; [|by apply IH].
  destruct (embs !! i) as [e|] eqn:He; [|by apply IH].
  destruct (Hnone i c e Hc He) as (s & -> & ->). by apply IH.
Qed.





(** C8, as the code has it. When no chunk of the content clears the
    threshold, [filterByQuery] returns no match ([matchedChunks = 0]); the
    filtered content is the empty string as soon as one chunk was
    extracted or the content is a node array, and it is the original
    string when that string yields no chunk at all. *)
Theorem filterByQuery_no_match
    (content : Tokens.Content) (query : string) (options : option FilterOptions)
    (calls : Calls) :
  (forall c, c ∈ chunksOf content ->
     exists s, cosineSimilarity (extractor query) (extractor (text c)) = Ok s
               /\ PrimFloat.leb (thresholdOf (option_map searchOptions options)) s = false) ->
  exists calls' r,
    filterByQuery extractor content query options calls = (calls', Ok r)
    /\ matchedChunks r = 0
    /\ results r = []
    /\ filteredContent r
       = match chunksOf content with
         | [] => match content with Tokens.Text s => s | Tokens.Nodes _ => EmptyString end
         | _ :: _ => EmptyString
         end.
Proof.
  intros Hnone. unfold filterByQuery.
  destruct (chunksOf content) as [|c chunks] eqn:Hchunks.
  - by eexists _, _.
  - unfold semanticSearch, embed, embedBatch.
    assert (option_map searchOptions options ≫= precomputedEmbeddings = None) as ->
      by (by destruct options).
    cbn [map].
    rewrite scoreLoop_no_match.
    + cbn [Arr.sort]. unfold Arr.sliceTo. rewrite take_nil. by eexists _, _.
    + intros j cj e Hcj He.
      change (extractor (text c) :: map extractor (map text chunks))
        with (map extractor (map text (c :: chunks))) in He.
      rewrite !list_lookup_fmap, Hcj in He. simpl in He. injection He as <-.
      apply Hnone. by eapply list_elem_of_lookup_2.
Qed.

End SemanticFacts.

(** * Concrete instances *)

Section Instances.
Import Types Errors Markup Engine Semantic Examples.

(** C2 at a concrete input: every request is answered with status 404,
    the ceiling is the full browser and auto-escalation is on. *)
Lemma http_error_stops_escalation_witness :
  fetch schemeOf (alwaysResponds 404 EmptyString) defaultEngine "https://example.com/missing"
  = Some (defaultEngine, [Called CHEERIO; Requested CHEERIO],
          Err (ThrownBrowser (httpClientError 404 "https://example.com/missing")))
  /\ CHEERIO ∈ calledTiers [Called CHEERIO; Requested CHEERIO]
  /\ attemptResult schemeOf (alwaysResponds 404 EmptyString) (timeout defaultEngine)
       CHEERIO "https://example.com/missing"
     = Err (ThrownBrowser (httpClientError 404 "https://example.com/missing"))
  /\ isHttpError (ThrownBrowser (httpClientError 404 "https://example.com/missing")) = true
  /\ (@Err PageResult (ThrownBrowser (httpClientError 404 "https://example.com/missing"))
      = Err (ThrownBrowser (httpClientError 404 "https://example.com/missing"))
      /\ Forall (fun t' => t' <= CHEERIO) (calledTiers [Called CHEERIO; Requested CHEERIO])).
Proof.
  assert (fetch schemeOf (alwaysResponds 404 EmptyString) defaultEngine
            "https://example.com/missing"
          = Some (defaultEngine, [Called CHEERIO; Requested CHEERIO],
                  Err (ThrownBrowser (httpClientError 404 "https://example.com/missing"))))
    as Hrun by (vm_compute; reflexivity).
  assert (CHEERIO ∈ calledTiers [Called CHEERIO; Requested CHEERIO]) as Hin
    by (apply list_elem_of_here).
  assert (attemptResult schemeOf (alwaysResponds 404 EmptyString) (timeout defaultEngine)
            CHEERIO "https://example.com/missing"
          = Err (ThrownBrowser (httpClientError 404 "https://example.com/missing")))
    as Hres by (vm_compute; reflexivity).
  assert (isHttpError (ThrownBrowser (httpClientError 404 "https://example.com/missing"))
          = true) as Hhttp by reflexivity.
  split; [exact Hrun|]. split; [exact Hin|]. split; [exact Hres|]. split; [exact Hhttp|].
  exact (http_error_stops_escalation schemeOf (alwaysResponds 404 EmptyString)
           defaultEngine defaultEngine "https://example.com/missing" _ _ CHEERIO _
           Hrun Hin Hres Hhttp).
Defined.

(** C3 as stated fails: for an ftp URL the engine calls the fetcher of
    every tier up to the ceiling instead of failing before any of them. *)
Lemma unsupported_scheme_still_calls_fetchers :
  exists s' trace r,
    fetch schemeOf (alwaysResponds 200 staticPage) defaultEngine "ftp://example.com/file"
    = Some (s', trace, r)
    /\ calledTiers trace = [CHEERIO; JSDOM; PLAYWRIGHT]
    /\ calledTiers trace <> [].
Proof. eexists _, _, _. split; [vm_compute; reflexivity|]. split; [reflexivity|discriminate]. Qed.

(** C3, as the code has it, at the same input. *)
Lemma unsupported_scheme_rejected_by_each_tier_witness :
  schemeOf "ftp://example.com/file" = Some "ftp:"
  /\ "ftp:" <> "http:" /\ "ftp:" <> "https:"
  /\ 1 <= maxTier defaultEngine <= 3
  /\ unclassified ("Unsupported protocol: " +:+ "ftp:") = true
  /\ (exists s' trace,
        fetch schemeOf (alwaysResponds 200 staticPage) defaultEngine "ftp://example.com/file"
        = Some (s', trace,
                Err (ThrownBrowser
                       (wrapError (ThrownError "Error" ("Unsupported protocol: " +:+ "ftp:")))))
        /\ requestedTiers trace = []
        /\ calledTiers trace
           = seqZ (startTier defaultEngine)
                  (maxTier defaultEngine - startTier defaultEngine + 1))
  /\ isHttpCode (code (wrapError (ThrownError "Error" ("Unsupported protocol: " +:+ "ftp:"))))
     = false
  /\ code (wrapError (ThrownError "Error" ("Unsupported protocol: " +:+ "ftp:")))
     = NETWORK_ERROR
  /\ recoverable (wrapError (ThrownError "Error" ("Unsupported protocol: " +:+ "ftp:")))
     = false.
Proof.
  assert (schemeOf "ftp://example.com/file" = Some "ftp:") as Hp by reflexivity.
  assert ("ftp:" <> "http:") as H1 by discriminate.
  assert ("ftp:" <> "https:") as H2 by discriminate.
  assert (1 <= maxTier defaultEngine <= 3) as Hmax by (vm_compute; split; discriminate).
  assert (unclassified ("Unsupported protocol: " +:+ "ftp:") = true) as Hplain
    by (vm_compute; reflexivity).
  destruct (unsupported_scheme_rejected_by_each_tier schemeOf (alwaysResponds 200 staticPage)
              defaultEngine "ftp://example.com/file" "ftp:" Hp H1 H2 Hmax)
    as (Hrun & Hcode & Hgeneric).
  destruct (Hgeneric Hplain) as [Hnet Hrec].
  split; [exact Hp|]. split; [exact H1|]. split; [exact H2|]. split; [exact Hmax|].
  split; [exact Hplain|]. split; [exact Hrun|]. split; [exact Hcode|].
  split; [exact Hnet|exact Hrec].
Defined.

(** C4 at a concrete input: after [setTier(CHEERIO)] on an engine whose
    ceiling is the full browser, the next [fetch] runs the full browser and
    never calls the static fetcher that was asked for. *)
Lemma setTier_static_then_fetch_runs_full_browser :
  exists s1 s' trace page,
    setTier defaultEngine CHEERIO = Ok s1
    /\ autoEscalate s1 = false
    /\ fetch schemeOf (alwaysResponds 200 staticPage) s1 "https://example.com/"
       = Some (s', trace, Ok page)
    /\ calledTiers trace = [PLAYWRIGHT]
    /\ tierUsed page = PLAYWRIGHT
    /\ CHEERIO ∉ calledTiers trace.
Proof.
  eexists _, _, _, _. split; [reflexivity|]. split; [reflexivity|].
  split; [vm_compute; reflexivity|]. split; [reflexivity|]. split; [reflexivity|].
  intros Hin. apply list_elem_of_singleton in Hin. discriminate.
Qed.





(** C8 as stated fails: a string too short to yield a chunk has no chunk
    clearing the threshold, and comes back as it is. *)
Lemma filterByQuery_returns_short_string :
  chunksOf (Tokens.Text "too short") = []
  /\ exists calls' r,
       filterByQuery exampleExtractor (Tokens.Text "too short") "How much does it cost?"
         strict [] = (calls', Ok r)
       /\ matchedChunks r = 0
       /\ filteredContent r = "too short"
       /\ filteredContent r <> EmptyString.
Proof.
  split; [reflexivity|]. eexists _, _. split; [vm_compute; reflexivity|].
  split; [reflexivity|]. split; [reflexivity|discriminate].
Qed.

(** C8, as the code has it, at the input of [tests/semantic.test.ts]: one
    chunk, which does not clear a threshold of 0.9. *)
Lemma filterByQuery_no_match_witness :
  (forall c, c ∈ chunksOf (Tokens.Text "single paragraph text here") ->
     exists s, cosineSimilarity (exampleExtractor "How much does it cost?")
                 (exampleExtractor (text c)) = Ok s
               /\ PrimFloat.leb (thresholdOf (option_map searchOptions strict)) s = false)
  /\ exists calls' r,
       filterByQuery exampleExtractor (Tokens.Text "single paragraph text here")
         "How much does it cost?" strict [] = (calls', Ok r)
       /\ matchedChunks r = 0
       /\ results r = []
       /\ filteredContent r
          = match chunksOf (Tokens.Text "single paragraph text here") with
            | [] => "single paragraph text here"
            | _ :: _ => EmptyString
            end.
Proof.
  assert (forall c, c ∈ chunksOf (Tokens.Text "single paragraph text here") ->
            exists s, cosineSimilarity (exampleExtractor "How much does it cost?")
                        (exampleExtractor (text c)) = Ok s
                      /\ PrimFloat.leb (thresholdOf (option_map searchOptions strict)) s = false)
    as Hnone.
  { intros c Hc.
    change (chunksOf (Tokens.Text "single paragraph text here"))
      with [mkChunk "single paragraph text here" 0 (Some "paragraph") None] in Hc.
    apply list_elem_of_singleton in Hc. subst c.
    exists 0%float. split; vm_compute; reflexivity. }
  split; [exact Hnone|].
  exact (filterByQuery_no_match exampleExtractor (Tokens.Text "single paragraph text here")
           "How much does it cost?" strict [] Hnone).
Defined.

End Instances.

(** * Further properties of the code *)

(** ** Strings: lengths, concatenation and trimming *)

Section StringFacts.

Lemma str_length_app (a b : string) :
  String.length (a +:+ b) = (String.length a + String.length b)%nat.
Proof. induction a as [|c a IH]; simpl; [done|by rewrite IH]. Qed.

Lemma len_app (a b : string) : Str.len (a +:+ b) = Str.len a + Str.len b.
Proof. unfold Str.len. rewrite str_length_app. lia. Qed.

Lemma len_nonneg (s : string) : 0 <= Str.len s.
Proof. unfold Str.len. lia. Qed.

Lemma str_length_take (n : nat) (s : string) :
  String.length (Str.take n s) = Nat.min n (String.length s).
Proof.
  revert s. induction n as [|n IH]; intros [|c s]; simpl; try done. by rewrite IH.
Qed.

Lemma str_length_drop (n : nat) (s : string) :
  String.length (Str.drop n s) = (String.length s - n)%nat.
Proof.
  revert s. induction n as [|n IH]; intros [|c s]; simpl; try done. 
Qed.

Lemma len_slice (s : string) (from to : Z) :
  Str.len (Str.slice s from to)
  = Z.max 0 (Str.relIndex (Str.len s) to - Str.relIndex (Str.len s) from).
Proof.
  unfold Str.slice, Str.len. rewrite str_length_take, str_length_drop.
  unfold Str.relIndex. 
  destruct (Z.ltb_spec to 0), (Z.ltb_spec from 0); lia.
Qed.

Lemma str_length_trimStart (s : string) :
  (String.length (Str.trimStart s) <= String.length s)%nat.
Proof.
  induction s as [|c s IH]; simpl; [done|]. destruct (Str.isSpace c); simpl; lia.
Qed.

Lemma str_length_trimEnd (s : string) :
  (String.length (Str.trimEnd s) <= String.length s)%nat.
Proof.
  induction s as [|c s IH]; simpl; [done|].
  destruct (Str.trimEnd s) as [|c' r]; [destruct (Str.isSpace c)|]; simpl in *; lia.
Qed.

Lemma len_trim (s : string) : Str.len (Str.trim s) <= Str.len s.
Proof.
  unfold Str.trim, Str.len.
  pose proof (str_length_trimEnd (Str.trimStart s)). pose proof (str_length_trimStart s). lia.
Qed.

Lemma str_app_cons (x : ascii) (a b : string) : String x a +:+ b = String x (a +:+ b).
Proof. reflexivity. Qed.

Lemma str_app_assoc (a b c : string) : (a +:+ b) +:+ c = a +:+ (b +:+ c).
Proof. induction a as [|x a IH]; [done|]. by rewrite !str_app_cons, IH. Qed.

Lemma str_app_empty_r (a : string) : a +:+ EmptyString = a.
Proof. induction a as [|x a IH]; [done|]. by rewrite str_app_cons, IH. Qed.

End StringFacts.

Section TrimFacts.
Import SemanticVocabulary.

Lemma trimStart_head (s : string) : Str.trimStart s = EmptyString \/ headOk (Str.trimStart s).
Proof.
  induction s as [|c s IH]; simpl; [by left|].
  destruct (Str.isSpace c) eqn:Hc; [done|by right].
Qed.

Lemma trimStart_fixed (s : string) : headOk s -> Str.trimStart s = s.
Proof. destruct s as [|c s]; [done|]. simpl. by intros ->. Qed.

Lemma trimEnd_head (s : string) : headOk s -> Str.trimEnd s = EmptyString \/ headOk (Str.trimEnd s).
Proof.
  destruct s as [|c s]; [done|]. simpl. intros Hc.
  destruct (Str.trimEnd s); [rewrite Hc|]; by right.
Qed.

Lemma trimEnd_idem (s : string) : Str.trimEnd (Str.trimEnd s) = Str.trimEnd s.
Proof.
  induction s as [|c s IH]; [done|]. cbn [Str.trimEnd].
  destruct (Str.trimEnd s) as [|d r] eqn:Hr.
  - destruct (Str.isSpace c) eqn:Hc; [done|]. cbn [Str.trimEnd]. by rewrite Hc.
  - cbn [Str.trimEnd] in *. by rewrite IH.
Qed.

Lemma trim_idem (s : string) : Str.trim (Str.trim s) = Str.trim s.
Proof.
  unfold Str.trim.
  destruct (trimStart_head s) as [->|Hhead]; [done|].
  destruct (trimEnd_head _ Hhead) as [->|Hhead']; [done|].
  by rewrite (trimStart_fixed _ Hhead'), trimEnd_idem.
Qed.

End TrimFacts.

(** ** Token estimates and the truncation of plain text *)

Section TokenExtras.
Import Types Tokens.

Lemma estimateTokens_formula (t : string) : estimateTokens t = (Str.len t + 3) / 4.
Proof. destruct t; [done|done]. Qed.

Lemma estimateTokens_bounds (t : string) :
  0 <= estimateTokens t
  /\ Str.len t <= 4 * estimateTokens t < Str.len t + 4.
Proof.
  rewrite estimateTokens_formula. pose proof (len_nonneg t).
  Z.div_mod_to_equations. lia.
Qed.

(** X1. The estimate is the number of code units divided by four,
    rounded up: it is never negative, four times the estimate covers the
    text, and does so with fewer than four units to spare. *)
Theorem estimateTokens_is_ceiling (t : string) :
  0 <= estimateTokens t
  /\ Str.len t <= 4 * estimateTokens t < Str.len t + 4.
Proof.
  destruct t as [|c t].
  - vm_compute. repeat split; discriminate.
  - unfold estimateTokens. pose proof (len_nonneg (String c t)).
    Z.div_mod_to_equations. lia.
Qed.

Lemma estimateTokens_app (a b : string) :
  estimateTokens (a +:+ b) <= estimateTokens a + estimateTokens b.
Proof.
  rewrite !estimateTokens_formula, len_app.
  pose proof (len_nonneg a). pose proof (len_nonneg b).
  Z.div_mod_to_equations. lia.
Qed.

Lemma estimateTokens_mono (a b : string) :
  Str.len a <= Str.len b -> estimateTokens a <= estimateTokens b.
Proof.
  intros H. rewrite !estimateTokens_formula. Z.div_mod_to_equations. lia.
Qed.

End TokenExtras.

Section TruncateTextFacts.
Import Types Tokens TokensVocabulary.

(** X6. Mode [end]: when the text exceeds the budget and the
    budget covers the indicator, the result is the first
    4 * (budget - indicator tokens) code units of the text followed by the
    indicator, and its token count is within the budget. *)
Theorem truncateText_end_within_budget (text : string) (B : Z) (o : option TextOptions) :
  modeOf o = ModeEnd ->
  B < estimateTokens text ->
  estimateTokens (indicatorOf o) <= B ->
  let r := truncateText text B o in
  truncated r = true
  /\ content r
     = Text (Str.take (Z.to_nat (4 * (B - estimateTokens (indicatorOf o)))) text
             +:+ indicatorOf o)
  /\ returnedTokens r <= B.
Proof.
  intros Hmode Hover Hind r. subst r. unfold truncateText.
  fold (modeOf o). fold (indicatorOf o). rewrite Hmode.
  destruct (Z.leb_spec (estimateTokens text) B); [lia|].
  cbn [truncated content returnedTokens].
  set (ind := indicatorOf o) in *. set (it := estimateTokens ind) in *.
  pose proof (estimateTokens_bounds text) as (_ & _ & Ht).
  pose proof (estimateTokens_bounds ind) as (Hi0 & Hi & _). fold it in Hi0, Hi.
  assert (Str.slice text 0 ((B - it) * 4) = Str.take (Z.to_nat (4 * (B - it))) text) as ->.
  { unfold Str.slice, Str.relIndex. pose proof (len_nonneg text).
    destruct (Z.ltb_spec 0 0); [lia|]. destruct (Z.ltb_spec ((B - it) * 4) 0); [lia|].
    rewrite (Z.min_l 0) by lia. rewrite (Z.min_l ((B - it) * 4)) by lia.
    simpl. f_equal. lia. }
  split; [done|]. split; [done|].
  rewrite estimateTokens_formula, len_app.
  unfold Str.len at 1. rewrite str_length_take.
  pose proof (len_nonneg ind).
  unfold Str.len in Ht.
  Z.div_mod_to_equations. lia.
Qed.

(** X7. Mode [middle] with the default indicator: the
    indicator is reserved for but the marker that is inserted is longer,
    so whenever the text is truncated the returned count exceeds the
    budget; for a budget above 5 it is exactly the budget plus 3. *)
Theorem truncateText_middle_overshoots (text : string) (B : Z) (o : option TextOptions) :
  modeOf o = ModeMiddle ->
  o ≫= indicator = None ->
  B < estimateTokens text ->
  let r := truncateText text B o in
  truncated r = true
  /\ B < returnedTokens r
  /\ (5 < B -> returnedTokens r = B + 3).
Proof.
  intros Hmode Hind Hover r. subst r. unfold truncateText.
  fold (modeOf o). rewrite Hmode, Hind.
  destruct (Z.leb_spec (estimateTokens text) B); [lia|].
  cbn [truncated content returnedTokens orElse default].
  change (estimateTokens (nl2 +:+ "... [truncated]")) with 5.
  pose proof (estimateTokens_bounds text) as (_ & _ & Ht).
  pose proof (len_nonneg text) as HL.
  rewrite estimateTokens_formula, !len_app.
  unfold Str.sliceFrom. rewrite !len_slice.
  change (Str.len nl2) with 2.
  change (Str.len "... [content truncated] ...") with 27.
  set (L := Str.len text) in *.
  unfold Str.relIndex.
  assert ((B - 5) * 4 / 2 = 2 * (B - 5)) as -> by (Z.div_mod_to_equations; lia).
  split; [done|].
  destruct (Z.ltb_spec 0 0); [lia|].
  destruct (Z.ltb_spec L 0); [lia|].
  destruct (Z.ltb_spec (2 * (B - 5)) 0), (Z.ltb_spec (- (2 * (B - 5))) 0);
    split; try (intros; Z.div_mod_to_equations; lia).
Qed.

Lemma smartLoop_spec (B it : Z) (ps : list string) : forall acc used,
  exists kept,
    kept `prefix_of` ps
    /\ smartLoop B it ps acc used = acc +:+ blocks kept
    /\ (kept = [] \/
        used + foldr (fun p z => estimateTokens (p +:+ nl2) + z) 0 kept + it <= B).
Proof.
  induction ps as [|p ps IH]; intros acc used; simpl.
  - exists []. split; [done|]. split; [by rewrite str_app_empty_r|by left].
  - destruct (Z.leb_spec (used + estimateTokens (p +:+ nl2) + it) B) as [Hfit|Hno].
    + destruct (IH (acc +:+ p +:+ nl2) (used + estimateTokens (p +:+ nl2)))
        as (kept & Hpre & -> & Hsum).
      exists (p :: kept). split; [by apply prefix_cons|].
      split; [cbn [blocks]; by rewrite !str_app_assoc|].
      right. destruct Hsum as [->|Hsum]; simpl; lia.
    + exists []. split; [apply prefix_nil|]. split; [by rewrite str_app_empty_r|by left].
Qed.

Lemma blocks_tokens (kept : list string) :
  estimateTokens (blocks kept)
  <= foldr (fun p z => estimateTokens (p +:+ nl2) + z) 0 kept.
Proof.
  induction kept as [|p kept IH]; cbn [blocks foldr]; [done|].
  rewrite <- str_app_assoc.
  pose proof (estimateTokens_app (p +:+ nl2) (blocks kept)). lia.
Qed.

(** X8. Mode [smart]: the result is made of whole
    leading paragraphs of the text, each followed by a blank line, trimmed
    and followed by the indicator; its token count stays within the larger
    of the budget and the size of the indicator. *)
Theorem truncateText_smart_whole_paragraphs
    (text : string) (B : Z) (o : option TextOptions) :
  modeOf o = ModeSmart ->
  B < estimateTokens text ->
  let r := truncateText text B o in
  exists kept,
    kept `prefix_of` Str.splitParagraphs text
    /\ content r = Text (Str.trim (blocks kept) +:+ indicatorOf o)
    /\ returnedTokens r <= Z.max B (estimateTokens (indicatorOf o)).
Proof.
  intros Hmode Hover r. subst r. unfold truncateText.
  fold (modeOf o). fold (indicatorOf o). rewrite Hmode.
  destruct (Z.leb_spec (estimateTokens text) B); [lia|].
  cbn [truncated content returnedTokens].
  destruct (smartLoop_spec B (estimateTokens (indicatorOf o)) (Str.splitParagraphs text)
              EmptyString 0) as (kept & Hpre & -> & Hsum).
  change (EmptyString +:+ blocks kept) with (blocks kept).
  exists kept. split; [done|]. split; [done|].
  destruct Hsum as [->|Hsum].
  { change (Str.trim (blocks []) +:+ indicatorOf o) with (indicatorOf o). lia. }
  pose proof (estimateTokens_app (Str.trim (blocks kept)) (indicatorOf o)).
  pose proof (estimateTokens_mono _ _ (len_trim (blocks kept))).
  pose proof (blocks_tokens kept). lia.
Qed.

End TruncateTextFacts.

(** ** Priorities and the selection of [truncateContent] *)

Section PriorityFacts.
Import Types Tokens.

Lemma content_priority_lookup (k : string) (v : Z) :
  CONTENT_PRIORITY !! k = Some v ->
  (k, v) ∈ [("heading", 100); ("h1", 100); ("h2", 90); ("h3", 80); ("h4", 70);
            ("h5", 60); ("h6", 50); ("paragraph", 40); ("list", 35);
            ("list-item", 30); ("blockquote", 25); ("code", 20); ("table", 15);
            ("link", 10); ("image", 5)].
Proof. unfold CONTENT_PRIORITY. apply elem_of_list_to_map_2. Qed.

(** The rendering of a number never starts with a letter. *)
Lemma pretty_N_go_not_letter (x : N) (s s' : string) :
  s <> String "e" s' -> pretty_N_go x s <> String "e" s'.
Proof.
  revert s. induction (N.lt_wf_0 x) as [x _ IH]; intros s Hs.
  assert (x = 0 \/ 0 < x)%N as [->|Hpos] by lia.
  - by rewrite pretty_N_go_0.
  - rewrite pretty_N_go_step by done. apply IH.
    { by apply N.div_lt. }
    unfold pretty_N_char. by repeat case_match.
Qed.

Lemma ofZ_not_letter (l : Z) (s' : string) : Str.ofZ l <> String "e" s'.
Proof.
  unfold Str.ofZ, pretty, pretty_Z. destruct l as [|p|p]; [done| |done].
  unfold pretty, pretty_positive, pretty, pretty_N.
  destruct (decide (N.pos p = 0%N)); [done|]. by apply pretty_N_go_not_letter.
Qed.

Lemma ofZ_digit (l d : Z) : Str.ofZ l = Str.ofZ d -> l = d.
Proof. unfold Str.ofZ. apply pretty_Z_inj. Qed.

(** X2. Headings come first.  A heading of level 1 to 6 has priority
    110 - 10 * level; a heading with no level, level 0 or a level outside
    1..6 has the priority 100 of a first-level heading; and every other
    type of node has a priority strictly below that of any heading. *)
Theorem heading_priority (lvl lvl' : option Z) (ty : ContentType) :
  getPriority heading lvl
  = match lvl with
    | Some l => if (1 <=? l) && (l <=? 6) then 110 - 10 * l else 100
    | None => 100
    end
  /\ (ty = heading \/ getPriority ty lvl' < getPriority heading lvl).
Proof.
  assert (getPriority heading lvl
          = match lvl with
            | Some l => if (1 <=? l) && (l <=? 6) then 110 - 10 * l else 100
            | None => 100
            end) as Hform.
  { destruct lvl as [l|]; [|done].
    destruct (Z.leb_spec 1 l), (Z.leb_spec l 6); cbn [andb].
    1:{ assert (l = 1 \/ l = 2 \/ l = 3 \/ l = 4 \/ l = 5 \/ l = 6) as Hcases by lia.
        destruct Hcases as [->|[->|[->|[->|[->| ->]]]]]; vm_compute; reflexivity. }
    all: unfold getPriority; destruct (Z.eqb_spec l 0) as [->|Hz]; [vm_compute; reflexivity|].
    all: change ("h" +:+ Str.ofZ l) with (String "h" (Str.ofZ l)).
    all: destruct (CONTENT_PRIORITY !! String "h" (Str.ofZ l)) as [v|] eqn:Hv;
           [exfalso|vm_compute; reflexivity].
    all: apply content_priority_lookup in Hv.
    all: repeat (apply elem_of_cons in Hv as [Hv|Hv];
                 [injection Hv as Hk _;
                  first [discriminate Hk
                        | by apply ofZ_not_letter in Hk
                        | apply (ofZ_digit l 1) in Hk; lia
                        | apply (ofZ_digit l 2) in Hk; lia
                        | apply (ofZ_digit l 3) in Hk; lia
                        | apply (ofZ_digit l 4) in Hk; lia
                        | apply (ofZ_digit l 5) in Hk; lia
                        | apply (ofZ_digit l 6) in Hk; lia]|]).
    all: by apply elem_of_nil in Hv. }
  split; [exact Hform|].
  destruct ty; [by left|right..].
  all: assert (50 <= getPriority heading lvl) as Hhead.
  all: try (rewrite Hform; destruct lvl as [l|]; [|lia];
            destruct (Z.leb_spec 1 l), (Z.leb_spec l 6); cbn [andb]; lia).
  all: match goal with
       | |- getPriority ?t _ < _ =>
           assert (getPriority t lvl' <= 40) as Hother;
           [destruct lvl'; vm_compute; discriminate|lia]
       end.
Qed.
End PriorityFacts.

Section SortHead.
Context {A : Type} (after : A -> A -> bool).

Lemma sort_head (x : A) (l : list A) :
  x ∈ l ->
  (forall y, y ∈ l -> after x y = false) ->
  (forall y, y ∈ l -> y = x \/ after y x = true) ->
  exists rest, Arr.sort after l = x :: rest.
Proof.
  induction l as [|a l IH]; intros Hin Hfirst Hothers; [by apply elem_of_nil in Hin|].
  simpl. apply elem_of_cons in Hin as [<-|Hin].
  - destruct (Arr.sort after l) as [|y r] eqn:Hs; simpl; [by eexists|].
    rewrite Hfirst; [by eexists|]. right.
    rewrite <- (sort_perm after l), Hs. left.
  - destruct IH as (rest & ->); [done|intros; apply Hfirst; by right|intros; apply Hothers; by right|].
    simpl. destruct (after a x) eqn:Ha; [by eexists|].
    destruct (Hothers a) as [->|Hax]; [left|by eexists|congruence].
Qed.
End SortHead.

Section ContentExtras.
Import Types Tokens TokensVocabulary.

Lemma greedy_monotone B reserve (l : list Item) sel0 used0 sel used :
  foldl (greedyStep B reserve) (sel0, used0) l = (sel, used) -> sel0 ⊆ sel.
Proof.
  revert sel0 used0. induction l as [|it l IH]; intros sel0 used0 Hrun; simpl in *.
  - by injection Hrun as -> _.
  - destruct (used0 + tokens it + reserve <=? B).
    + apply IH in Hrun. set_solver.
    + by apply IH in Hrun.
Qed.

Lemma keepSelected_elem sel off (nodes : list StructuredContent) k x :
  nodes !! k = Some x -> (off + k)%nat ∈ sel -> x ∈ keepSelected sel off nodes.
Proof.
  revert off k. induction nodes as [|y nodes IH]; intros off k Hk Hsel; [done|].
  simpl. destruct k as [|k]; simpl in Hk.
  - injection Hk as ->. rewrite Nat.add_0_r in Hsel.
    destruct (decide (off ∈ sel)); [left|done].
  - assert (x ∈ keepSelected sel (S off) nodes) as Hx.
    { apply (IH (S off) k Hk). by replace (S off + k)%nat with (off + S k)%nat by lia. }
    destruct (decide (off ∈ sel)); [by right|done].
Qed.

Lemma effectivePriority_measure o j y :
  priority (applyCustomPriority (o ≫= priorityOrder) (measure j y)) = effectivePriority o y.
Proof.
  unfold effectivePriority, applyCustomPriority, measure. simpl.
  destruct (o ≫= priorityOrder) as [ord|]; [|done].
  by destruct (priorityMap ord !! typeName (type y)).
Qed.

Lemma prioritized_elem o (nodes : list StructuredContent) (it : Item) :
  it ∈ map (applyCustomPriority (o ≫= priorityOrder)) (imap measure nodes) <->
  exists j y, nodes !! j = Some y
              /\ it = applyCustomPriority (o ≫= priorityOrder) (measure j y).
Proof.
  rewrite list_elem_of_fmap. split.
  - intros (m & -> & Hm). apply elem_of_lookup_imap in Hm as (j & y & -> & Hj). eauto.
  - intros (j & y & Hj & ->). eexists. split; [done|].
    apply elem_of_lookup_imap. eauto.
Qed.

(** X3. When the content exceeds the budget, the node that
    sorts first (its priority is above that of every other node, or equal
    with a smaller position) is kept whenever its own estimate plus the
    indicator allowance fits in the budget. *)
Theorem truncateContent_keeps_top_priority
    (nodes : list StructuredContent) (B : Z) (o : option ContentOptions)
    (i : nat) (x : StructuredContent) :
  B < estimate (Nodes nodes) ->
  nodes !! i = Some x ->
  estimateTokens (getContentText x) + reserveOf o <= B ->
  (forall j y, nodes !! j = Some y -> j <> i ->
     effectivePriority o y < effectivePriority o x
     \/ (effectivePriority o y = effectivePriority o x /\ (i < j)%nat)) ->
  exists out, content (truncateContent nodes B o) = Nodes out /\ x ∈ out.
Proof.
  intros Hover Hi Hfits Htop.
  destruct (truncateContent_paths nodes B o) as [[Hfit _]|[_ Hrun]]; [lia|].
  destruct Hrun as (sel & used & Hg & _ & _ & Hshape).
  set (X := applyCustomPriority (o ≫= priorityOrder) (measure i x)).
  assert (exists rest, sortedItemsOf nodes o = X :: rest) as (rest & Hsorted).
  { unfold sortedItemsOf. apply sort_head.
    - apply prioritized_elem. eauto.
    - intros Y HY. apply prioritized_elem in HY as (j & y & Hj & ->).
      unfold itemAfter, compareItems, X.
      rewrite !effectivePriority_measure, !applyCustomPriority_index. simpl.
      destruct (decide (j = i)) as [->|Hne].
      + rewrite Hi in Hj. injection Hj as <-. rewrite Z.eqb_refl. simpl. lia.
      + destruct (Htop j y Hj Hne) as [Hlt|[Heq Hlt]].
        * destruct (Z.eqb_spec (effectivePriority o y) (effectivePriority o x)); simpl; lia.
        * rewrite Heq, Z.eqb_refl. simpl. lia.
    - intros Y HY. apply prioritized_elem in HY as (j & y & Hj & ->).
      destruct (decide (j = i)) as [->|Hne].
      + left. rewrite Hi in Hj. by injection Hj as <-.
      + right. unfold itemAfter, compareItems, X.
        rewrite !effectivePriority_measure, !applyCustomPriority_index. simpl.
        destruct (Htop j y Hj Hne) as [Hlt|[Heq Hlt]].
        * destruct (Z.eqb_spec (effectivePriority o x) (effectivePriority o y)); simpl; lia.
        * rewrite Heq, Z.eqb_refl. simpl. lia. }
  assert (i ∈ sel) as Hsel.
  { unfold greedy in Hg. rewrite Hsorted in Hg. simpl in Hg.
    assert (tokens X = estimateTokens (getContentText x)) as Htok
      by (unfold X; by rewrite applyCustomPriority_tokens).
    assert (originalIndex X = i) as Hidx
      by (unfold X; by rewrite applyCustomPriority_index).
    rewrite Htok, Hidx in Hg.
    destruct (Z.leb_spec (0 + estimateTokens (getContentText x) + reserveOf o) B); [|lia].
    apply greedy_monotone in Hg. apply Hg, elem_of_union. left. by apply elem_of_singleton. }
  assert (x ∈ keepSelected sel 0 nodes) as Hkept by (by apply (keepSelected_elem sel 0 nodes i)).
  destruct Hshape as [[-> _]|(-> & _)]; eexists; (split; [done|]); [done|].
  apply elem_of_app. by left.
Qed.

(** The running total of the greedy loop is the sum over the items it
    selected. *)
Lemma greedy_used B reserve (l : list Item) sel0 used0 sel used :
  foldl (greedyStep B reserve) (sel0, used0) l = (sel, used) ->
  NoDup (map originalIndex l) ->
  (forall i, i ∈ map originalIndex l -> i ∉ sel0) ->
  used = used0 + sumTokens (filter (fun it => originalIndex it ∈ sel) l).
Proof.
  revert sel0 used0. induction l as [|it l IH]; intros sel0 used0 Hrun Hnd Hfresh.
  - simpl in Hrun. injection Hrun as _ ->. simpl. lia.
  - apply NoDup_cons in Hnd as [Hnotin Hnd]. simpl in Hrun.
    destruct (Z.leb_spec (used0 + tokens it + reserve) B) as [Hfit|Hno].
    + pose proof (greedy_monotone _ _ _ _ _ _ _ Hrun) as Hmono.
      rewrite filter_cons_True
        by (apply Hmono, elem_of_union; left; by apply elem_of_singleton).
      rewrite (IH _ _ Hrun Hnd); [simpl; lia|].
      intros i Hi Hin. apply elem_of_union in Hin as [Hin|Hin].
      * apply elem_of_singleton in Hin. by subst.
      * eapply Hfresh; [right; exact Hi|done].
    + rewrite filter_cons_False.
      * apply (IH _ _ Hrun Hnd). intros i Hi. apply Hfresh. by right.
      * intros Hin.
        destruct (greedy_selects_offered _ _ _ _ _ _ _ Hrun _ Hin) as [Hin0|Hin0]; [|done].
        eapply Hfresh; [left|done].
Qed.

(** The sum of the token estimates of a list of nodes. *)
Lemma estimate_nodes (nodes : list StructuredContent) :
  estimate (Nodes nodes)
  = foldr (fun x acc => estimateTokens (getContentText x) + acc) 0 nodes.
Proof.
  unfold estimate. rewrite foldl_tokens.
  assert (forall off, sumTokens (imap (fun j => measure (off + j)) nodes)
                      = foldr (fun x acc => estimateTokens (getContentText x) + acc) 0 nodes)
    as Hoff.
  { induction nodes as [|x nodes IH]; intros off; simpl; [done|].
    f_equal. rewrite <- (IH (S off)). f_equal. apply imap_ext. intros j y _. simpl.
    f_equal. lia. }
  rewrite <- (Hoff 0%nat). simpl. done.
Qed.

Lemma selected_tokens o sel (nodes : list StructuredContent) : forall off,
  sumTokens (filter (fun it => originalIndex it ∈ sel)
               (map (applyCustomPriority o) (imap (fun j => measure (off + j)) nodes)))
  = estimate (Nodes (keepSelected sel off nodes)).
Proof.
  induction nodes as [|x nodes IH]; intros off; [done|].
  cbn [imap map keepSelected].
  assert (imap ((fun j => measure (off + j)) ∘ S) nodes
          = imap (fun j => measure (S off + j)) nodes) as ->.
  { apply imap_ext. intros j y _. simpl. f_equal. lia. }
  specialize (IH (S off)).
  destruct (decide (off ∈ sel)) as [Hin|Hout].
  - rewrite filter_cons_True
      by (rewrite applyCustomPriority_index; simpl; by rewrite Nat.add_0_r).
    rewrite estimate_nodes. simpl. rewrite <- estimate_nodes, <- IH.
    by rewrite applyCustomPriority_tokens.
  - rewrite filter_cons_False
      by (rewrite applyCustomPriority_index; simpl; by rewrite Nat.add_0_r).
    exact IH.
Qed.

(** X4. The bookkeeping of a truncating call: the original
    count is the estimate of the input; the kept nodes are a subsequence
    of the input; the omitted count is the number of input nodes minus the
    number kept; the returned count is the estimate of the kept nodes,
    plus a flat 20 when the indicator node is appended (whatever the size
    of the indicator itself), which happens only if something was
    omitted. *)
Theorem truncateContent_accounting
    (nodes : list StructuredContent) (B : Z) (o : option ContentOptions) :
  B < estimate (Nodes nodes) ->
  let r := truncateContent nodes B o in
  exists kept,
    kept `sublist_of` nodes
    /\ originalTokens r = estimate (Nodes nodes)
    /\ itemsOmitted r = Z.of_nat (length nodes) - Z.of_nat (length kept)
    /\ ((content r = Nodes kept /\ returnedTokens r = estimate (Nodes kept))
        \/ (content r = Nodes (kept ++ [indicatorNode (itemsOmitted r)])
            /\ returnedTokens r = estimate (Nodes kept) + 20
            /\ 0 < itemsOmitted r)).
Proof.
  intros Hover r. subst r. unfold truncateContent.
  destruct (Z.leb_spec (foldl (fun acc it => acc + tokens it) 0 (imap measure nodes)) B)
    as [Hfit|_]; [unfold estimate in Hover; lia|].
  fold (estimate (Nodes nodes)).
  destruct (greedy B _ _) as [sel used] eqn:Hg.
  exists (keepSelected sel 0 nodes).
  assert (used = estimate (Nodes (keepSelected sel 0 nodes))) as Hused.
  { unfold greedy in Hg. apply greedy_used in Hg.
    - rewrite Hg, Z.add_0_l.
      rewrite (sumTokens_perm _ (filter (fun it => originalIndex it ∈ sel)
                 (map (applyCustomPriority (o ≫= priorityOrder)) (imap measure nodes)))).
      + apply (selected_tokens _ sel nodes 0).
      + apply filter_Permutation, sort_perm.
    - rewrite (sort_perm itemAfter _), prioritized_indices. apply NoDup_seq.
    - intros i _. apply not_elem_of_empty. }
  split; [apply keepSelected_sublist|].
  destruct (orElse (o ≫= addIndicator) true); cbn [andb].
  - destruct (Z.ltb_spec 0 (Z.of_nat (length nodes)
                              - Z.of_nat (length (keepSelected sel 0 nodes)))) as [Hpos|Hnone];
      cbn [originalTokens itemsOmitted content returnedTokens].
    + split; [done|]. split; [done|]. right. by rewrite Hused.
    + split; [done|]. split; [done|]. left. by rewrite Hused.
  - cbn [originalTokens itemsOmitted content returnedTokens].
    split; [done|]. split; [done|]. left. by rewrite Hused.
Qed.

Lemma foldl_insert_lookup (l : list (string * Z)) (m : gmap string Z) (k : string) (p : Z) :
  foldl (fun m kv => <[kv.1 := kv.2]> m) m l !! k = Some p ->
  m !! k = Some p \/ (k, p) ∈ l.
Proof.
  revert m. induction l as [|[k' p'] l IH]; intros m H; simpl in *; [by left|].
  apply IH in H as [H|H]; [|right; by right].
  destruct (decide (k' = k)) as [->|Hne].
  - rewrite lookup_insert_eq in H. injection H as ->. right. left.
  - rewrite lookup_insert_ne in H by done. by left.
Qed.

Lemma foldl_insert_listed (l : list (string * Z)) (m : gmap string Z) (k : string) :
  is_Some (m !! k) \/ k ∈ map fst l ->
  is_Some (foldl (fun m kv => <[kv.1 := kv.2]> m) m l !! k).
Proof.
  revert m. induction l as [|[k' p'] l IH]; intros m H; simpl in *.
  - destruct H as [H|H]; [done|by apply elem_of_nil in H].
  - apply IH. destruct H as [H|H].
    + left. destruct (decide (k' = k)) as [->|Hne];
        [by rewrite lookup_insert_eq|by rewrite lookup_insert_ne].
    + apply elem_of_cons in H as [->|H]; [|by right].
      left. by rewrite lookup_insert_eq.
Qed.

Lemma priorityMap_lookup (order : list string) (k : string) (p : Z) :
  priorityMap order !! k = Some p ->
  exists idx, order !! idx = Some k /\ p = 1000 - Z.of_nat idx.
Proof.
  unfold priorityMap. intros H. apply foldl_insert_lookup in H as [H|H].
  - by rewrite lookup_empty in H.
  - apply elem_of_lookup_imap in H as (idx & ty & [= -> ->] & Hidx). eauto.
Qed.

Lemma priorityMap_listed (order : list string) (k : string) :
  k ∈ order -> is_Some (priorityMap order !! k).
Proof.
  intros Hk. unfold priorityMap. apply foldl_insert_listed. right.
  apply list_elem_of_lookup in Hk as (idx & Hidx).
  apply list_elem_of_fmap. exists (k, 1000 - Z.of_nat idx). split; [done|].
  apply elem_of_lookup_imap. eauto.
Qed.

Lemma getPriority_at_most_100 ty lvl : getPriority ty lvl <= 100.
Proof.
  assert (forall k v, CONTENT_PRIORITY !! k = Some v -> v <= 100) as Hmax.
  { intros k v H. unfold CONTENT_PRIORITY in H. apply elem_of_list_to_map_2 in H.
    repeat (apply elem_of_cons in H as [H|H]; [injection H as _ ->; lia|]).
    by apply elem_of_nil in H. }
  assert (forall k d, d <= 100 -> orElse (CONTENT_PRIORITY !! k) d <= 100) as Hor.
  { intros k d Hd. destruct (CONTENT_PRIORITY !! k) as [v|] eqn:Hv; simpl; [|done].
    unfold orElse. simpl. by eapply Hmax. }
  unfold getPriority. destruct ty, lvl as [l|]; try (apply Hor; lia).
  destruct (l =? 0); [apply Hor; lia|]. apply Hor, Hor. lia.
Qed.

(** X5. With a custom priority order of at most 900
    entries, a node whose type is listed sorts above every node whose type
    is not: the listed one gets 1000 minus a position of its type in the
    list, the other keeps a default priority of at most 100. *)
Theorem custom_priority_outranks_defaults
    (o : option ContentOptions) (order : list string) (x y : StructuredContent) :
  o ≫= priorityOrder = Some order ->
  (length order <= 900)%nat ->
  typeName (type x) ∈ order ->
  typeName (type y) ∉ order ->
  effectivePriority o y <= 100 < effectivePriority o x
  /\ exists idx, order !! idx = Some (typeName (type x))
                 /\ effectivePriority o x = 1000 - Z.of_nat idx.
Proof.
  intros Ho Hlen Hx Hy. unfold effectivePriority, applyCustomPriority. rewrite Ho.
  cbn [item measure].
  destruct (priorityMap_listed order _ Hx) as [p Hp]. rewrite Hp. cbn [priority].
  destruct (priorityMap_lookup order _ p Hp) as (idx & Hidx & ->).
  pose proof (lookup_lt_Some _ _ _ Hidx) as Hlt.
  destruct (priorityMap order !! typeName (type y)) as [q|] eqn:Hq.
  - exfalso. apply priorityMap_lookup in Hq as (j & Hj & _).
    apply Hy. by eapply list_elem_of_lookup_2.
  - cbn [priority measure]. pose proof (getPriority_at_most_100 (type y) (level y)).
    split; [lia|]. eauto.
Qed.

End ContentExtras.

(** ** Errors and the tier fetchers *)

Section ErrorFacts.
Import Types Errors.

(** X9. [wrapError] on a plain [Error]: the message is kept and
    no suggestion is given; the code is [DNS_ERROR] exactly when the
    lower-cased message mentions [enotfound] or [getaddrinfo]; and the
    result is recoverable exactly when it is a [TIMEOUT], or a
    [NETWORK_ERROR] whose message mentions [fetch], [network],
    [econnrefused] or [socket] (the [enotfound] and [etimedout] tests of
    [isNetworkError] never decide). *)
Theorem wrapError_classification (name msg : string) :
  let b := wrapError (ThrownError name msg) in
  let m := Str.toLowerCase msg in
  message b = msg
  /\ suggestion b = None
  /\ (code b = DNS_ERROR <->
      Str.includes "enotfound" m || Str.includes "getaddrinfo" m = true)
  /\ (recoverable b = true <->
      code b = TIMEOUT
      \/ (code b = NETWORK_ERROR
          /\ Str.includes "fetch" m || Str.includes "network" m
             || Str.includes "econnrefused" m || Str.includes "socket" m = true)).
Proof.
  intros b m. subst b. unfold wrapError, isNetworkError. fold m.
  destruct (Str.includes "enotfound" m), (Str.includes "getaddrinfo" m);
    cbn [orb code message recoverable suggestion];
    try (split; [done|]; split; [done|]; split; [done|]; split; [done|];
         intros [?|[? _]]; done).
  destruct (Str.includes "etimedout" m), (Str.includes "timeout" m);
    cbn [orb code message recoverable suggestion];
    try (split; [done|]; split; [done|]; split; [done|]; split; [by left|done]).
  destruct (Str.includes "ssl" m), (Str.includes "certificate" m);
    cbn [orb code message recoverable suggestion];
    try (split; [done|]; split; [done|]; split; [done|]; split; [done|];
         intros [?|[? _]]; done).
  destruct (Str.includes "fetch" m), (Str.includes "network" m),
    (Str.includes "econnrefused" m), (Str.includes "socket" m);
    cbn [orb code message recoverable suggestion];
    (split; [done|]; split; [done|]; split; [done|]; split;
     [first [done | by right] | first [done | intros [?|[_ ?]]; done]]).
Qed.
End ErrorFacts.

(** ** The escalation heuristics *)

Section HeuristicFacts.
Import Types Errors Markup Engine.

Lemma includes_prefix (needle hay : string) :
  String.prefix needle hay = true -> Str.includes needle hay = true.
Proof. intros H. destruct hay; cbn [Str.includes]; by rewrite H. Qed.

Lemma includes_tail (needle hay : string) (c : ascii) :
  Str.includes needle hay = true -> Str.includes needle (String c hay) = true.
Proof. intros H. cbn [Str.includes]. rewrite H. apply orb_true_r. Qed.

Lemma includes_app_l (needle a hay : string) :
  Str.includes needle hay = true -> Str.includes needle (a +:+ hay) = true.
Proof.
  intros H. induction a as [|c a IH]; [done|].
  change (String c a +:+ hay) with (String c (a +:+ hay)). by apply includes_tail.
Qed.

Lemma includes_shorter (c : ascii) (needle hay : string) :
  Str.includes (String c needle) hay = true -> Str.includes needle hay = true.
Proof.
  induction hay as [|d hay IH]; [done|].
  cbn [Str.includes]. intros H. apply orb_prop in H as [H|H].
  - apply includes_tail, includes_prefix. simpl in H.
    by destruct (ascii_dec c d).
  - by apply includes_tail, IH.
Qed.

Lemma elementMatch_includes (name html g : string) :
  elementMatch name html = Some g ->
  Str.includes (Str.toLowerCase ("<" +:+ name)) (Str.toLowerCase html) = true.
Proof.
  induction html as [|c html IH]; cbn [elementMatch].
  - destruct (prefixCI ("<" +:+ name) EmptyString) eqn:Hp; [|done].
    intros _. by apply includes_prefix.
  - destruct (prefixCI ("<" +:+ name) (String c html)) eqn:Hp.
    + intros _. by apply includes_prefix.
    + intros H. cbn [Str.toLowerCase]. by apply includes_tail, IH.
Qed.

Lemma indicator_needsJavaScript (ind html : string) :
  ind ∈ spaIndicators ->
  Str.includes (Str.toLowerCase ind) (Str.toLowerCase html) = true ->
  needsJavaScript html = true.
Proof.
  intros Hin Hinc. unfold needsJavaScript.
  assert (existsb (fun ind => Str.includes (Str.toLowerCase ind) (Str.toLowerCase html))
                  spaIndicators = true) as ->.
  { apply existsb_exists. exists ind. split; [by apply list_elem_of_In|done]. }
  destruct (elementMatch "body" html) as [[|c rest]|]; try done.
  by destruct (_ <? 100).
Qed.

(** X19. A page that contains one of the indicator strings
    of [needsJavaScript] in any letter case, or any [noscript] element
    whatever the length of its content, makes the engine escalate from the
    first tier. *)
Theorem noscript_or_indicator_escalates (html : string) :
  (exists ind, ind ∈ spaIndicators
               /\ Str.includes (Str.toLowerCase ind) (Str.toLowerCase html) = true)
  \/ is_Some (elementMatch "noscript" html) ->
  shouldEscalate html CHEERIO = true.
Proof.
  intros H. unfold shouldEscalate, detectJsRequired. rewrite Z.eqb_refl.
  apply orb_true_iff. right.
  destruct H as [(ind & Hin & Hinc)|[inner Hm]].
  - by eapply indicator_needsJavaScript.
  - apply (indicator_needsJavaScript "noscript").
    + unfold spaIndicators. rewrite !elem_of_cons. tauto.
    + apply elementMatch_includes in Hm. by apply includes_shorter in Hm.
Qed.

End HeuristicFacts.

(** ** The escalation loop, iteration by iteration *)

Section EngineExtras.
Import Types Errors Markup Engine EngineVocabulary.
Variable parseProtocol : string -> option string.
Variable net : EngineTier -> string -> Outcome.

Lemma attemptResult_tier (tm : Z) (tier : EngineTier) (url : string) :
  (1 <= tier <= 3
   /\ attemptResult parseProtocol net tm tier url
      = match validateUrl parseProtocol url with
        | Err e => Err e
        | Ok _ => request net tier (timeoutTest tier) url tm
        end)
  \/ (~ 1 <= tier <= 3
      /\ attemptResult parseProtocol net tm tier url = Err (ThrownBrowser (unknownTier tier))).
Proof.
  unfold attemptResult, attempt, cheerioFetch, jsdomFetch, playwrightFetch, tierFetch,
    timeoutTest.
  destruct (Z.eqb_spec tier CHEERIO) as [->|H1];
    [|destruct (Z.eqb_spec tier JSDOM) as [->|H2];
      [|destruct (Z.eqb_spec tier PLAYWRIGHT) as [->|H3]]].
  - left. split; [done|]. by destruct (validateUrl parseProtocol url).
  - left. split; [done|]. by destruct (validateUrl parseProtocol url).
  - left. split; [done|]. by destruct (validateUrl parseProtocol url).
  - right. split; [unfold CHEERIO, JSDOM, PLAYWRIGHT in *; lia|done].
Qed.

Lemma validateUrl_error (url : string) (e : Thrown) :
  validateUrl parseProtocol url = Err e -> exists b, e = ThrownBrowser b.
Proof.
  unfold validateUrl. destruct (parseProtocol url) as [p|]; [|intros [= <-]; by eexists].
  destruct (negb _); [intros [= <-]; by eexists|done].
Qed.

Lemma request_error (tier : EngineTier) test (url : string) (tm : Z) (e : Thrown) :
  request net tier test url tm = Err e -> exists b, e = ThrownBrowser b.
Proof.
  unfold request. destruct (respond net tier url) as [page|e0]; [done|].
  destruct (test e0); intros [= <-]; by eexists.
Qed.

(** A tier fetcher only ever throws a [BrowserError]. *)
Lemma attemptResult_error (tm : Z) (tier : EngineTier) (url : string) (e : Thrown) :
  attemptResult parseProtocol net tm tier url = Err e -> exists b, e = ThrownBrowser b.
Proof.
  destruct (attemptResult_tier tm tier url) as [[_ ->]|[_ ->]].
  - destruct (validateUrl parseProtocol url) as [[]|e0] eqn:Hv.
    + apply request_error.
    + intros [= <-]. by eapply validateUrl_error.
  - intros [= <-]. by eexists.
Qed.

(** X10. A page returned by a tier fetcher comes from a
    response: the tier is one of the three, the URL passed the validation,
    the platform answered with the status, final URL and markup of the
    page, the status is below 400, and the page carries the fetcher's
    tier. *)
Theorem tier_page_comes_from_response
    (tm : Z) (tier : EngineTier) (url : string) (page : PageResult) :
  attemptResult parseProtocol net tm tier url = Ok page ->
  1 <= tier <= 3
  /\ validateUrl parseProtocol url = Ok tt
  /\ net tier url = Responded (statusCode page) (Types.url page) (html page)
  /\ statusCode page < 400
  /\ tierUsed page = tier.
Proof.
  destruct (attemptResult_tier tm tier url) as [[Htier ->]|[_ ->]]; [|done].
  destruct (validateUrl parseProtocol url) as [[]|e0]; [|done].
  unfold request, respond.
  destruct (net tier url) as [status finalUrl markup|name msg].
  - destruct (Z.leb_spec 400 status), (Z.ltb_spec status 500); cbn [andb].
    + by destruct (timeoutTest tier _).
    + destruct (Z.leb_spec 500 status); [|lia]. by destruct (timeoutTest tier _).
    + destruct (Z.leb_spec 500 status); [lia|]. intros [= <-]. simpl. done.
    + lia.
  - by destruct (timeoutTest tier _).
Qed.
Lemma attempt_unfold (s : State) (tier : EngineTier) (url : string) (trace : Trace) :
  attempt parseProtocol net (withTier s tier) tier url trace
  = (afterAttempt s tier, trace ++ tierEvents parseProtocol tier url,
     attemptResult parseProtocol net (timeout s) tier url).
Proof.
  unfold attemptResult, attempt, cheerioFetch, jsdomFetch, playwrightFetch, tierFetch,
    tierEvents, afterAttempt.
  change (timeout (withTier s tier)) with (timeout s). cbn [timeout].
  destruct (Z.eqb_spec tier CHEERIO) as [->|H1];
    [|destruct (Z.eqb_spec tier JSDOM) as [->|H2];
      [|destruct (Z.eqb_spec tier PLAYWRIGHT) as [->|H3]]].
  1-3: destruct (validateUrl parseProtocol url); simpl; by rewrite <- ?app_assoc.
  destruct (Z.leb_spec 1 tier), (Z.leb_spec tier 3); cbn [andb]; rewrite ?app_nil_r; try done.
  unfold CHEERIO, JSDOM, PLAYWRIGHT in *. lia.
Qed.

(** One iteration of the loop of [fetch]. *)
Lemma fetchLoop_unfold (fuel : nat) (url : string) (s : State) (tier : EngineTier)
    (trace : Trace) :
  tier <= maxTier s ->
  fetchLoop parseProtocol net (S fuel) url s tier trace
  = let out := attemptResult parseProtocol net (timeout s) tier url in
    if autoEscalate s && (tier <? maxTier s) && escalates out tier
    then fetchLoop parseProtocol net fuel url (afterAttempt s tier) (tier + 1)
           (trace ++ tierEvents parseProtocol tier url)
    else Some (afterAttempt s tier, trace ++ tierEvents parseProtocol tier url,
               finalOutcome out tier).
Proof.
  intros Hle. cbn [fetchLoop]. destruct (Z.leb_spec tier (maxTier s)); [|lia].
  rewrite attempt_unfold.
  assert (maxTier (afterAttempt s tier) = maxTier s
          /\ autoEscalate (afterAttempt s tier) = autoEscalate s) as [-> ->].
  { unfold afterAttempt. by destruct (tier =? PLAYWRIGHT). }
  cbv zeta.
  destruct (attemptResult parseProtocol net (timeout s) tier url) as [page|e] eqn:Hout;
    cbn [escalates]; [done|].
  destruct (attemptResult_error _ _ _ _ Hout) as [b ->]. cbn [wrapError].
  destruct (isHttpError (ThrownBrowser b)); cbn [negb].
  - by rewrite andb_false_r.
  - by rewrite andb_true_r.
Qed.

Lemma fetchLoop_exhausted (fuel : nat) (url : string) (s : State) (tier : EngineTier)
    (trace : Trace) :
  maxTier s < tier ->
  fetchLoop parseProtocol net fuel url s tier trace
  = Some (s, trace, Err (ThrownBrowser exhausted)).
Proof.
  intros Hgt. destruct fuel; cbn [fetchLoop]; by destruct (Z.leb_spec tier (maxTier s)); [lia|].
Qed.
Lemma calledTiers_tierEvents (tier : EngineTier) (url : string) :
  calledTiers (tierEvents parseProtocol tier url)
  = if (1 <=? tier) && (tier <=? 3) then [tier] else [].
Proof.
  unfold tierEvents. destruct ((1 <=? tier) && (tier <=? 3)); [|done].
  by destruct (validateUrl parseProtocol url).
Qed.

Lemma afterAttempt_fields (s : State) (tier : EngineTier) :
  maxTier (afterAttempt s tier) = maxTier s
  /\ autoEscalate (afterAttempt s tier) = autoEscalate s
  /\ timeout (afterAttempt s tier) = timeout s
  /\ currentTier (afterAttempt s tier) = tier
  /\ usedPlaywright (afterAttempt s tier) = usedPlaywright s || (tier =? PLAYWRIGHT).
Proof.
  unfold afterAttempt. destruct (tier =? PLAYWRIGHT); simpl; by rewrite ?orb_true_r, ?orb_false_r.
Qed.

(** The loop leaves the options alone and raises the Playwright flag
    exactly when it calls the third fetcher. *)
Lemma fetchLoop_flags (url : string) (fuel : nat) : forall s tier trace,
  maxTier s - tier + 1 <= Z.of_nat fuel ->
  exists s' evs r,
    fetchLoop parseProtocol net fuel url s tier trace = Some (s', trace ++ evs, r)
    /\ maxTier s' = maxTier s /\ autoEscalate s' = autoEscalate s
    /\ timeout s' = timeout s
    /\ usedPlaywright s'
       = usedPlaywright s || bool_decide (PLAYWRIGHT ∈ calledTiers evs).
Proof.
  induction fuel as [|fuel IH]; intros s tier trace Hfuel.
  - rewrite fetchLoop_exhausted by lia. exists s, [], (Err (ThrownBrowser exhausted)).
    rewrite app_nil_r. simpl. by rewrite orb_false_r.
  - destruct (Z.le_gt_cases tier (maxTier s)) as [Hle|Hgt].
    2:{ rewrite fetchLoop_exhausted by lia. exists s, [], (Err (ThrownBrowser exhausted)).
        rewrite app_nil_r. simpl. by rewrite orb_false_r. }
    rewrite fetchLoop_unfold by done. cbv zeta.
    destruct (afterAttempt_fields s tier) as (Hmax & Hauto & Htime & _ & Hpw).
    assert (bool_decide (PLAYWRIGHT ∈ calledTiers (tierEvents parseProtocol tier url))
            = (tier =? PLAYWRIGHT)) as Hev.
    { rewrite calledTiers_tierEvents. unfold PLAYWRIGHT.
      destruct (Z.eqb_spec tier 3) as [->|Hne]; [done|].
      destruct ((1 <=? tier) && (tier <=? 3)); apply bool_decide_eq_false.
      - intros Hin. apply list_elem_of_singleton in Hin. done.
      - apply not_elem_of_nil. }
    destruct (autoEscalate s && (tier <? maxTier s) && escalates _ tier) eqn:Hesc.
    + destruct (IH (afterAttempt s tier) (tier + 1) (trace ++ tierEvents parseProtocol tier url))
        as (s' & evs & r & -> & Hmax' & Hauto' & Htime' & Hpw'); [lia|].
      exists s', (tierEvents parseProtocol tier url ++ evs), r.
      rewrite app_assoc. split; [done|].
      split; [congruence|]. split; [congruence|]. split; [congruence|].
      rewrite Hpw', Hpw, <- Hev, calledTiers_app, <- orb_assoc. f_equal.
      apply eq_true_iff_eq. rewrite orb_true_iff, !bool_decide_eq_true, elem_of_app. done.
    + eexists _, _, _. split; [done|]. by rewrite Hev.
Qed.

(** X15. [fetch] returns, never changes the ceiling,
    the auto-escalation switch or the timeout, and leaves the engine such
    that [close] closes the shared browser exactly when the third tier was
    called in this call or the browser was already in use. *)
Theorem fetch_keeps_options_and_flags_playwright (s : State) (url : string) :
  exists s' trace r,
    fetch parseProtocol net s url = Some (s', trace, r)
    /\ maxTier s' = maxTier s /\ autoEscalate s' = autoEscalate s
    /\ timeout s' = timeout s
    /\ (close s' = [CloseBrowser] <->
        usedPlaywright s = true \/ PLAYWRIGHT ∈ calledTiers trace).
Proof.
  unfold fetch.
  destruct (fetchLoop_flags url (Z.to_nat (maxTier s - startTier s + 1))
              (withTier s (startTier s)) (startTier s) [])
    as (s' & evs & r & Hrun & Hmax & Hauto & Htime & Hpw); [simpl; lia|].
  exists s', evs, r. split; [exact Hrun|]. repeat (split; [done|]).
  unfold close. rewrite Hpw. simpl.
  destruct (usedPlaywright s); simpl.
  - split; [by left|done].
  - destruct (bool_decide_reflect (PLAYWRIGHT ∈ calledTiers evs)); split; try done.
    + by right.
    + by intros [?|?].
Qed.

(** From a valid tier on, under a ceiling of at most 3: some tier is
    called, and the loop ends with the outcome of the last one. *)
Lemma fetchLoop_last (url : string) (fuel : nat) : forall s tier trace,
  maxTier s - tier + 1 <= Z.of_nat fuel ->
  1 <= tier -> tier <= maxTier s -> maxTier s <= 3 ->
  exists s' evs r t,
    fetchLoop parseProtocol net fuel url s tier trace = Some (s', trace ++ evs, r)
    /\ last (calledTiers evs) = Some t
    /\ tier <= t
    /\ currentTier s' = t
    /\ r = finalOutcome (attemptResult parseProtocol net (timeout s) t url) t.
Proof.
  induction fuel as [|fuel IH]; intros s tier trace Hfuel H1 Hle H3; [lia|].
  rewrite fetchLoop_unfold by done. cbv zeta.
  destruct (afterAttempt_fields s tier) as (Hmax & Hauto & Htime & Hcur & _).
  assert (calledTiers (tierEvents parseProtocol tier url) = [tier]) as Hev.
  { rewrite calledTiers_tierEvents.
    destruct (Z.leb_spec 1 tier), (Z.leb_spec tier 3); cbn [andb]; try lia. done. }
  destruct (autoEscalate s && (tier <? maxTier s) && escalates _ tier) eqn:Hesc.
  - apply andb_prop in Hesc as [Hesc _]. apply andb_prop in Hesc as [_ Hlt].
    destruct (IH (afterAttempt s tier) (tier + 1) (trace ++ tierEvents parseProtocol tier url))
      as (s' & evs & r & t & -> & Hlast & Hge & Hcur' & Hr); [lia..|].
    exists s', (tierEvents parseProtocol tier url ++ evs), r, t.
    rewrite app_assoc. split; [done|].
    rewrite calledTiers_app, Hev. split.
    { destruct (calledTiers evs) as [|c cs]; [done|]. exact Hlast. }
    split; [lia|]. split; [done|]. by rewrite Htime in Hr.
  - eexists _, _, _, tier. split; [done|]. rewrite Hev. split; [done|].
    split; [lia|]. done.
Qed.

(** X14. Under a ceiling of at most 3, the outcome of [fetch] is
    the outcome of the last tier it called: [getActiveTier] then returns
    that tier, a page is that fetcher's page stamped with the tier, and an
    error is that fetcher's error (the errors of the tiers below are
    dropped); when no tier could be called the error is the engine's
    own. *)
Theorem fetch_outcome_is_last_tier (s : State) (url : string) :
  maxTier s <= 3 ->
  exists s' trace r,
    fetch parseProtocol net s url = Some (s', trace, r)
    /\ match last (calledTiers trace) with
       | Some t =>
           getActiveTier s' = t
           /\ r = finalOutcome (attemptResult parseProtocol net (timeout s) t url) t
       | None =>
           r = Err (ThrownBrowser (if autoEscalate s then exhausted
                                   else unknownTier (maxTier s)))
       end.
Proof.
  intros H3. unfold fetch.
  destruct (Z.le_gt_cases 1 (maxTier s)) as [H1|H0].
  - destruct (fetchLoop_last url (Z.to_nat (maxTier s - startTier s + 1))
                (withTier s (startTier s)) (startTier s) [])
      as (s' & evs & r & t & Hrun & Hlast & _ & Hcur & Hr);
      try (unfold startTier, CHEERIO; destruct (autoEscalate s); simpl; lia).
    exists s', evs, r. split; [exact Hrun|]. by rewrite Hlast.
  - unfold startTier. destruct (autoEscalate s) eqn:Hauto.
    + rewrite fetchLoop_exhausted by (unfold CHEERIO; simpl; lia).
      by eexists _, _, _.
    + replace (Z.to_nat (maxTier s - maxTier s + 1)) with 1%nat by lia.
      rewrite fetchLoop_unfold by (simpl; lia). cbv zeta.
      change (autoEscalate (withTier s (maxTier s))) with (autoEscalate s).
      rewrite Hauto. cbn [andb].
      eexists _, _, _. split; [done|].
      rewrite app_nil_l, calledTiers_tierEvents.
      destruct (Z.leb_spec 1 (maxTier s)); [lia|]. cbn [andb last].
      destruct (attemptResult_tier (timeout (withTier s (maxTier s))) (maxTier s) url)
        as [[Hv _]|[_ ->]]; [lia|done].
Qed.

(** X16. With auto-escalation off, [fetch] is
    the single call of the fetcher of the ceiling tier (no call at all
    if the ceiling is not one of the three tiers): no other tier is tried,
    whatever the page or the failure, and the active tier is the
    ceiling. *)
Theorem fetch_without_escalation_calls_only_the_ceiling (s : State) (url : string) :
  autoEscalate s = false ->
  exists s' trace,
    fetch parseProtocol net s url
    = Some (s', trace,
            finalOutcome (attemptResult parseProtocol net (timeout s) (maxTier s) url)
                         (maxTier s))
    /\ calledTiers trace = (if (1 <=? maxTier s) && (maxTier s <=? 3)
                            then [maxTier s] else [])
    /\ getActiveTier s' = maxTier s.
Proof.
  intros Hauto. unfold fetch, startTier. rewrite Hauto.
  replace (Z.to_nat (maxTier s - maxTier s + 1)) with 1%nat by lia.
  rewrite fetchLoop_unfold by (simpl; lia). cbv zeta.
  change (autoEscalate (withTier s (maxTier s))) with (autoEscalate s).
  rewrite Hauto. cbn [andb].
  eexists _, _. split; [done|].
  rewrite app_nil_l, calledTiers_tierEvents. split; [done|].
  unfold getActiveTier.
  by destruct (afterAttempt_fields (withTier s (maxTier s)) (maxTier s)) as (_ & _ & _ & -> & _).
Qed.

(** X17. With auto-escalation on and a ceiling below the
    first tier, the loop of [fetch] is never entered: no fetcher is
    called and the call fails with the error that follows the loop,
    [Failed to fetch with all available tiers]. *)
Theorem fetch_with_ceiling_below_first_tier (s : State) (url : string) :
  autoEscalate s = true -> maxTier s < 1 ->
  fetch parseProtocol net s url
  = Some (withTier s CHEERIO, [], Err (ThrownBrowser exhausted)).
Proof.
  intros Hauto Hmax. unfold fetch, startTier. rewrite Hauto.
  apply fetchLoop_exhausted. unfold CHEERIO. simpl. lia.
Qed.

(** With auto-escalation on, which tiers the loop calls. *)
Lemma fetchLoop_escalation (url : string) (fuel : nat) : forall s tier trace,
  autoEscalate s = true ->
  1 <= tier ->
  maxTier s - tier + 1 <= Z.of_nat fuel ->
  exists s' evs r,
    fetchLoop parseProtocol net fuel url s tier trace = Some (s', trace ++ evs, r)
    /\ (tier ∈ calledTiers evs <-> tier <= maxTier s /\ tier <= 3)
    /\ Forall (fun t => tier <= t) (calledTiers evs)
    /\ forall t, tier <= t -> t < 3 ->
         ((t + 1) ∈ calledTiers evs <->
          t ∈ calledTiers evs /\ t < maxTier s
          /\ escalates (attemptResult parseProtocol net (timeout s) t url) t = true).
Proof.
  induction fuel as [|fuel IH]; intros s tier trace Hauto H1 Hfuel.
  - rewrite fetchLoop_exhausted by lia. exists s, [], (Err (ThrownBrowser exhausted)).
    rewrite app_nil_r. split; [done|]. simpl.
    split; [split; [by intros ?%elem_of_nil|lia]|]. split; [constructor|].
    intros t _ _. split; [by intros ?%elem_of_nil|by intros [?%elem_of_nil _]].
  - destruct (Z.le_gt_cases tier (maxTier s)) as [Hle|Hgt].
    2:{ rewrite fetchLoop_exhausted by lia. exists s, [], (Err (ThrownBrowser exhausted)).
        rewrite app_nil_r. split; [done|]. simpl.
        split; [split; [by intros ?%elem_of_nil|lia]|]. split; [constructor|].
        intros t _ _. split; [by intros ?%elem_of_nil|by intros [?%elem_of_nil _]]. }
    rewrite fetchLoop_unfold by done. cbv zeta. rewrite Hauto. cbn [andb].
    destruct (afterAttempt_fields s tier) as (Hmax & Hauto' & Htime & _ & _).
    pose proof (calledTiers_tierEvents tier url) as Hev.
    assert (tier ∈ calledTiers (tierEvents parseProtocol tier url) <-> tier <= 3) as Hhere.
    { rewrite Hev. destruct (Z.leb_spec 1 tier), (Z.leb_spec tier 3); cbn [andb]; try lia.
      - split; [done|intros _; left].
      - split; [by intros ?%elem_of_nil|lia]. }
    assert (forall t, t ∈ calledTiers (tierEvents parseProtocol tier url) -> t = tier) as Honly.
    { intros t. rewrite Hev. destruct ((1 <=? tier) && (tier <=? 3)).
      - by intros ?%list_elem_of_singleton.
      - by intros ?%elem_of_nil. }
    destruct ((tier <? maxTier s) && escalates _ tier) eqn:Hesc.
    + apply andb_prop in Hesc as [Hlt Hesc]. apply Z.ltb_lt in Hlt.
      destruct (IH (afterAttempt s tier) (tier + 1) (trace ++ tierEvents parseProtocol tier url))
        as (s' & evs & r & -> & Hnext & Hfrom & Hrule); [congruence|lia|lia|].
      rewrite Hmax, Htime in *.
      exists s', (tierEvents parseProtocol tier url ++ evs), r.
      rewrite app_assoc. split; [done|]. rewrite calledTiers_app.
      assert (forall t, t ∈ calledTiers evs -> tier + 1 <= t) as Hfrom'
        by (by apply Forall_forall).
      split; [|split].
      * rewrite elem_of_app, Hhere. split; [intros [?|Hin]; [lia|apply Hfrom' in Hin; lia]|].
        intros [_ ?]. by left.
      * apply Forall_app. split.
        -- apply Forall_forall. intros t Ht. apply Honly in Ht. lia.
        -- eapply Forall_impl; [exact Hfrom|]. simpl. lia.
      * intros t Hge Ht. rewrite !elem_of_app.
        destruct (decide (t = tier)) as [->|Hne].
        -- rewrite Hnext, Hhere. split.
           ++ intros [Hin|_]; [apply Honly in Hin; lia|].
              split; [left; lia|]. split; [done|done].
           ++ intros _. right. lia.
        -- split.
           ++ intros [Hin|Hin]; [apply Honly in Hin; lia|].
              apply Hrule in Hin as (Hin & ? & ?); [|lia..].
              split; [by right|done].
           ++ intros ([Hin|Hin] & Hlt' & Hstep); [by apply Honly in Hin|].
              right. apply Hrule; [lia..|done].
    + eexists _, _, _. split; [done|].
      split; [rewrite Hhere; lia|]. split.
      * apply Forall_forall. intros t Ht. apply Honly in Ht. lia.
      * intros t Hge Ht. split.
        -- intros Hin. apply Honly in Hin. lia.
        -- intros (Hin & Hlt & Hstep). apply Honly in Hin. subst t.
           apply Z.ltb_lt in Hlt. rewrite Hlt, Hstep in Hesc. discriminate.
Qed.

(** X18. The rule of escalation.  With auto-escalation on, the first tier
    is called exactly when the ceiling admits it, and each further tier is
    called exactly when the tier below it was called, lies below the
    ceiling and either returned a page on which [shouldEscalate] holds or
    failed with an error that is not an HTTP error. *)
Theorem escalation_rule (s : State) (url : string) :
  autoEscalate s = true ->
  exists s' trace r,
    fetch parseProtocol net s url = Some (s', trace, r)
    /\ (CHEERIO ∈ calledTiers trace <-> 1 <= maxTier s)
    /\ forall t, 1 <= t < 3 ->
         ((t + 1) ∈ calledTiers trace <->
          t ∈ calledTiers trace /\ t < maxTier s
          /\ escalates (attemptResult parseProtocol net (timeout s) t url) t = true).
Proof.
  intros Hauto. unfold fetch, startTier. rewrite Hauto.
  destruct (fetchLoop_escalation url (Z.to_nat (maxTier s - CHEERIO + 1))
              (withTier s CHEERIO) CHEERIO [])
    as (s' & evs & r & Hrun & Hfirst & _ & Hrule);
    [done|unfold CHEERIO; lia|simpl; lia|].
  exists s', evs, r. split; [exact Hrun|]. simpl in *.
  split.
  - rewrite Hfirst. unfold CHEERIO. lia.
  - intros t Ht. apply Hrule; unfold CHEERIO; lia.
Qed.

(** X11. A failure of the platform itself (an
    [Error] thrown by the request, as opposed to a response with an error
    status) comes out of the tier fetcher as a timeout error when the test
    of its [catch] clause recognises it and as the error [wrapError]
    builds otherwise; either way it is not an HTTP error, so with
    auto-escalation on the engine moves to the next tier. *)
Theorem platform_failure_is_classified_and_escalates
    (tm : Z) (tier : EngineTier) (url name msg : string) :
  1 <= tier <= 3 ->
  validateUrl parseProtocol url = Ok tt ->
  net tier url = Threw name msg ->
  let b := if timeoutTest tier (ThrownError name msg) then timeoutError url tm
           else wrapError (ThrownError name msg) in
  attemptResult parseProtocol net tm tier url = Err (ThrownBrowser b)
  /\ isHttpCode (code b) = false
  /\ escalates (attemptResult parseProtocol net tm tier url) tier = true.
Proof.
  intros Htier Hv Hnet b.
  assert (isHttpCode (code b) = false) as Hcode.
  { subst b. destruct (timeoutTest tier _); [done|apply wrapError_plain_not_http]. }
  destruct (attemptResult_tier tm tier url) as [[_ ->]|[Hbad _]]; [|lia].
  rewrite Hv. unfold request, respond. rewrite Hnet. fold b.
  assert ((if timeoutTest tier (ThrownError name msg)
           then Err (ThrownBrowser (timeoutError url tm))
           else Err (ThrownBrowser (wrapError (ThrownError name msg))))
          = @Err PageResult (ThrownBrowser b)) as ->
    by (subst b; by destruct (timeoutTest tier _)).
  split; [done|]. split; [done|]. cbn [escalates isHttpError]. by rewrite Hcode.
Qed.

(** X12. The fetchers of the first two tiers turn a
    response with status 400 or more into an HTTP client error (below 500)
    or an HTTP server error (500 and above), which the engine treats as
    final. *)
Theorem static_tiers_report_http_status
    (tm : Z) (tier : EngineTier) (url finalUrl markup : string) (status : Z) :
  tier = CHEERIO \/ tier = JSDOM ->
  validateUrl parseProtocol url = Ok tt ->
  net tier url = Responded status finalUrl markup ->
  400 <= status ->
  let b := if status <? 500 then httpClientError status url
           else httpServerError status url in
  attemptResult parseProtocol net tm tier url = Err (ThrownBrowser b)
  /\ isHttpError (ThrownBrowser b) = true.
Proof.
  intros Htier Hv Hnet Hst b.
  destruct (attemptResult_tier tm tier url) as [[_ ->]|[Hbad _]];
    [|unfold CHEERIO, JSDOM in *; lia].
  rewrite Hv. unfold request, respond, timeoutTest. rewrite Hnet.
  assert ((tier =? PLAYWRIGHT) = false) as ->
    by (unfold CHEERIO, JSDOM, PLAYWRIGHT in *; lia).
  subst b. destruct (Z.leb_spec 400 status); [|lia].
  destruct (Z.ltb_spec status 500); cbn [andb]; [done|].
  destruct (Z.leb_spec 500 status); [done|lia].
Qed.

(** X13. The third fetcher tests the message of
    whatever its [try] block throws for the word [Timeout], and the
    message of an HTTP error ends with the URL: for a URL that contains
    [Timeout], a response with status 400 or more is reported as a timeout
    error, which is not an HTTP error. *)
Theorem playwright_reports_http_status_as_timeout
    (tm : Z) (url finalUrl markup : string) (status : Z) :
  validateUrl parseProtocol url = Ok tt ->
  net PLAYWRIGHT url = Responded status finalUrl markup ->
  400 <= status ->
  Str.includes "Timeout" url = true ->
  attemptResult parseProtocol net tm PLAYWRIGHT url
  = Err (ThrownBrowser (timeoutError url tm))
  /\ isHttpError (ThrownBrowser (timeoutError url tm)) = false.
Proof.
  intros Hv Hnet Hst Hinc. split; [|done].
  destruct (attemptResult_tier tm PLAYWRIGHT url) as [[_ ->]|[Hbad _]];
    [|unfold PLAYWRIGHT in *; lia].
  rewrite Hv. unfold request, respond, timeoutTest. rewrite Hnet, Z.eqb_refl.
  destruct (Z.leb_spec 400 status); [|lia].
  destruct (Z.ltb_spec status 500); cbn [andb].
  - unfold mentionsTimeout, errorMessage, httpClientError. cbn [message].
    match goal with
    | |- context [Str.includes "Timeout" ?m] =>
        assert (Str.includes "Timeout" m = true) as ->
          by (repeat apply includes_app_l; exact Hinc)
    end.
    done.
  - destruct (Z.leb_spec 500 status); [|lia].
    unfold mentionsTimeout, errorMessage, httpServerError. cbn [message].
    match goal with
    | |- context [Str.includes "Timeout" ?m] =>
        assert (Str.includes "Timeout" m = true) as ->
          by (repeat apply includes_app_l; exact Hinc)
    end.
    done.
Qed.

End EngineExtras.

(** ** Cosine similarity and the search *)

Section CosineFacts.
Import Types Errors Semantic.

Lemma SFmul_comm prec emax (x y : spec_float) :
  SFmul prec emax x y = SFmul prec emax y x.
Proof.
  destruct x as [sx|sx| |sx mx ex], y as [sy|sy| |sy my ey]; simpl;
    rewrite ?(xorb_comm sx sy), ?(Pos.mul_comm mx my), ?(Z.add_comm ex ey); reflexivity.
Qed.

Lemma float_mul_comm (x y : float) : (x * y)%float = (y * x)%float.
Proof.
  apply Prim2SF_inj. rewrite !mul_spec. apply SFmul_comm.
Qed.

Lemma accumulate_swap (a b : Vector) : forall dot normA normB,
  accumulate b a dot normB normA
  = let '(d, na, nb) := accumulate a b dot normA normB in (d, nb, na).
Proof.
  revert b. induction a as [|x a IH]; intros [|y b] dot normA normB; try done.
  simpl. rewrite (float_mul_comm y x). apply IH.
Qed.

(** X20. [cosineSimilarity] is symmetric, as a computation on
    doubles: the same score, or the same error, for both orders of its
    arguments. *)
Theorem cosineSimilarity_symmetric (a b : Vector) :
  cosineSimilarity a b = cosineSimilarity b a.
Proof.
  unfold cosineSimilarity. rewrite (Nat.eqb_sym (length b) (length a)).
  destruct (length a =? length b)%nat; [|done]. cbn [negb].
  rewrite (accumulate_swap a b).
  destruct (accumulate a b 0 0 0) as [[d na] nb].
  by rewrite (float_mul_comm (PrimFloat.sqrt nb) (PrimFloat.sqrt na)).
Qed.
End CosineFacts.

Section SearchFacts.
Import Types Errors Semantic SemanticVocabulary.
Variable extractor : string -> Vector.

Lemma cosineSimilarity_result (a b : Vector) :
  (length a = length b /\ exists s, cosineSimilarity a b = Ok s)
  \/ (length a <> length b
      /\ cosineSimilarity a b = Err (ThrownError "Error" "Vectors must have same length")).
Proof.
  unfold cosineSimilarity. destruct (Nat.eqb_spec (length a) (length b)) as [Heq|Hne]; cbn [negb].
  - left. split; [done|]. destruct (accumulate a b 0 0 0) as [[d na] nb].
    destruct (PrimFloat.eqb _ 0); by eexists.
  - by right.
Qed.

Lemma semanticSearch_unfold (query : string) (chunks : list ContentChunk)
    (options : option SearchOptions) (calls : Calls) :
  chunks <> [] ->
  semanticSearch extractor query chunks options calls
  = (calls ++ query :: (if usesPrecomputed chunks options then [] else map text chunks),
     match scoreLoop (extractor query) (thresholdOf options) chunks
             (embeddingsFor extractor chunks options) 0 (length chunks) [] with
     | Err err => Err err
     | Ok results => Ok (Arr.sliceTo (Arr.sort scoreAfter results) (topKOf options))
     end).
Proof.
  intros Hne. unfold semanticSearch, embeddingsFor, usesPrecomputed, embed, embedBatch.
  destruct chunks as [|c chunks]; [done|].
  destruct (options ≫= precomputedEmbeddings) as [pre|]; cbn [default].
  - destruct (length pre =? length (c :: chunks))%nat.
    + by destruct (scoreLoop _ _ _ _ _ _ _).
    + cbn [map]. rewrite <- app_assoc. by destruct (scoreLoop _ _ _ _ _ _ _).
  - cbn [map]. rewrite <- app_assoc. by destruct (scoreLoop _ _ _ _ _ _ _).
Qed.

(** X21. The calls of [semanticSearch] to the embedding model:
    none for an empty array of chunks; otherwise the query, followed by
    the text of every chunk in order unless the options carry one
    precomputed embedding per chunk. *)
Theorem semanticSearch_model_calls (query : string) (chunks : list ContentChunk)
    (options : option SearchOptions) (calls : Calls) :
  (semanticSearch extractor query chunks options calls).1
  = calls ++ match chunks with
             | [] => []
             | _ :: _ => query :: (if usesPrecomputed chunks options then []
                                   else map text chunks)
             end.
Proof.
  destruct chunks as [|c chunks]; [by rewrite app_nil_r|].
  by rewrite semanticSearch_unfold.
Qed.

Lemma scoreLoop_fails (qe : Vector) (thr : float) (chunks : list ContentChunk)
    (embs : list Vector) (n : nat) : forall i results,
  (exists e, scoreLoop qe thr chunks embs i n results = Err e) <->
  exists j c v, (i <= j < i + n)%nat /\ chunks !! j = Some c /\ embs !! j = Some v
                /\ length qe <> length v.
Proof.
  induction n as [|n IH]; intros i results; cbn [scoreLoop].
  - split; [by intros [e ?]|]. intros (j & _ & _ & ? & _). lia.
  - assert ((exists j c v, (S i <= j < S i + n)%nat /\ chunks !! j = Some c
                           /\ embs !! j = Some v /\ length qe <> length v)
            -> exists j c v, (i <= j < i + S n)%nat /\ chunks !! j = Some c
                             /\ embs !! j = Some v /\ length qe <> length v) as Hlater.
    { intros (j & c & v & ? & ?). exists j, c, v. split; [lia|done]. }
    assert (forall j c v, (i <= j < i + S n)%nat -> chunks !! j = Some c ->
              embs !! j = Some v -> length qe <> length v ->
              j = i \/ exists j c v, (S i <= j < S i + n)%nat /\ chunks !! j = Some c
                                     /\ embs !! j = Some v /\ length qe <> length v)
      as Hsplit.
    { intros j c v ? ? ? ?. destruct (decide (j = i)); [by left|right].
      exists j, c, v. split; [lia|done]. }
    destruct (chunks !! i) as [c|] eqn:Hc; [destruct (embs !! i) as [v|] eqn:Hv|].
    + destruct (cosineSimilarity_result qe v) as [[Hlen [s ->]]|[Hlen ->]].
      * rewrite IH. split; [exact Hlater|].
        intros (j & c' & v' & Hj & Hc' & Hv' & Hne).
        destruct (Hsplit j c' v' Hj Hc' Hv' Hne) as [->|?]; [|done].
        unfold Vector in *. congruence.
      * split; [|by eexists]. intros _. exists i, c, v. split; [lia|done].
    + rewrite IH. split; [exact Hlater|].
      intros (j & c' & v' & Hj & Hc' & Hv' & Hne).
      destruct (Hsplit j c' v' Hj Hc' Hv' Hne) as [->|?]; [|done].
        unfold Vector in *. congruence.
    + rewrite IH. split; [exact Hlater|].
      intros (j & c' & v' & Hj & Hc' & Hv' & Hne).
      destruct (Hsplit j c' v' Hj Hc' Hv' Hne) as [->|?]; [|done].
        unfold Vector in *. congruence.
Qed.

Lemma scoreLoop_error (qe : Vector) (thr : float) (chunks : list ContentChunk)
    (embs : list Vector) (n : nat) : forall i results e,
  scoreLoop qe thr chunks embs i n results = Err e ->
  e = ThrownError "Error" "Vectors must have same length".
Proof.
  induction n as [|n IH]; intros i results e; cbn [scoreLoop]; [done|].
  destruct (chunks !! i) as [c|]; [destruct (embs !! i) as [v|]|]; try apply IH.
  destruct (cosineSimilarity_result qe v) as [[_ [s ->]]|[_ ->]]; [apply IH|congruence].
Qed.

(** X22. [semanticSearch] fails exactly when the
    embedding used for some chunk has a length other than that of the
    query embedding, and then with the error of [cosineSimilarity]. *)
Theorem semanticSearch_fails_on_dimension_mismatch (query : string)
    (chunks : list ContentChunk) (options : option SearchOptions) (calls : Calls) :
  let outcome := (semanticSearch extractor query chunks options calls).2 in
  ((exists e, outcome = Err e) <->
   exists j c v, chunks !! j = Some c
                 /\ embeddingsFor extractor chunks options !! j = Some v
                 /\ length (extractor query) <> length v)
  /\ match outcome with
     | Err e => e = ThrownError "Error" "Vectors must have same length"
     | Ok _ => True
     end.
Proof.
  intros outcome. subst outcome.
  destruct (decide (chunks = [])) as [->|Hne].
  - simpl. split; [|done]. split; [by intros [e ?]|by intros (j & c & v & ? & _)].
  - rewrite semanticSearch_unfold by done. cbn [snd].
    pose proof (scoreLoop_fails (extractor query) (thresholdOf options) chunks
                  (embeddingsFor extractor chunks options) (length chunks) 0 []) as Hiff.
    pose proof (scoreLoop_error (extractor query) (thresholdOf options) chunks
                  (embeddingsFor extractor chunks options) (length chunks) 0 []) as Herr.
    destruct (scoreLoop _ _ _ _ _ _ _) as [found|e].
    + split; [|done]. split; [by intros [e ?]|].
      intros (j & c & v & Hc & Hv & Hlen). destruct Hiff as [_ Hiff].
      destruct Hiff as [e ?]; [|done]. exists j, c, v. split; [|done].
      apply lookup_lt_Some in Hc. lia.
    + split; [|by apply Herr]. split; [|by eexists].
      intros _. destruct Hiff as [Hiff _].
      destruct Hiff as (j & c & v & _ & ?); [by eexists|]. by exists j, c, v.
Qed.

Lemma scoreLoop_provenance (qe : Vector) (thr : float) (chunks : list ContentChunk)
    (embs : list Vector) (n : nat) : forall i results out,
  scoreLoop qe thr chunks embs i n results = Ok out ->
  exists new, out = results ++ new
              /\ Forall (scoredFrom qe chunks embs) new
              /\ (length new <= n)%nat.
Proof.
  induction n as [|n IH]; intros i results out; cbn [scoreLoop].
  - intros [= <-]. exists []. rewrite app_nil_r. split; [done|]. split; [constructor|done].
  - destruct (chunks !! i) as [c|] eqn:Hc; [destruct (embs !! i) as [v|] eqn:Hv|].
    + destruct (cosineSimilarity qe v) as [s|e] eqn:Hs; [|done].
      destruct (PrimFloat.leb thr s).
      * intros H. apply IH in H as (new & -> & Hnew & Hlen).
        exists (mkMatch c s :: new). rewrite <- app_assoc. split; [done|].
        split; [|simpl; lia]. constructor; [|done]. by exists i, v.
      * intros H. apply IH in H as (new & -> & Hnew & Hlen).
        exists new. split; [done|]. split; [done|lia].
    + intros H. apply IH in H as (new & -> & Hnew & Hlen).
      exists new. split; [done|]. split; [done|lia].
    + intros H. apply IH in H as (new & -> & Hnew & Hlen).
      exists new. split; [done|]. split; [done|lia].
Qed.

Lemma semanticSearch_provenance (query : string)
    (chunks : list ContentChunk) (options : option SearchOptions)
    (calls calls' : Calls) (found : list SemanticSearchResult) :
  semanticSearch extractor query chunks options calls = (calls', Ok found) ->
  (length found <= length chunks)%nat
  /\ Forall (scoredFrom (extractor query) chunks (embeddingsFor extractor chunks options))
            found.
Proof.
  destruct (decide (chunks = [])) as [->|Hne].
  - simpl. intros [= _ <-]. split; [done|constructor].
  - rewrite semanticSearch_unfold by done.
    destruct (scoreLoop _ _ _ _ _ _ _) as [results|e] eqn:Hloop; [|done].
    intros [= _ <-]. apply scoreLoop_provenance in Hloop as (new & -> & Hnew & Hlen).
    rewrite app_nil_l.
    pose proof (sliceTo_sublist (Arr.sort scoreAfter new) (topKOf options)) as Hsub.
    split.
    + apply sublist_length in Hsub.
      pose proof (Permutation_length (sort_perm scoreAfter new)). lia.
    + apply (Forall_of_sublist _ _ _ Hsub).
      by rewrite (sort_perm scoreAfter new).
Qed.

(** X23. Every result of [semanticSearch] is one of
    the given chunks with the cosine similarity of its embedding and the
    query embedding as its score, and there are no more results than
    chunks. *)
Theorem semanticSearch_results_are_scored_chunks (query : string)
    (chunks : list ContentChunk) (options : option SearchOptions)
    (calls calls' : Calls) (found : list SemanticSearchResult) :
  semanticSearch extractor query chunks options calls = (calls', Ok found) ->
  (length found <= length chunks)%nat
  /\ Forall (scoredFrom (extractor query) chunks (embeddingsFor extractor chunks options))
            found.
Proof.
  intros Hrun. destruct chunks as [|c chunks].
  - simpl in Hrun. injection Hrun as _ <-. split; [done|constructor].
  - rewrite semanticSearch_unfold in Hrun by done.
    destruct (scoreLoop _ _ _ _ _ _ _) as [results|e] eqn:Hloop; [|done].
    injection Hrun as _ <-.
    apply scoreLoop_provenance in Hloop as (new & -> & Hnew & Hlen).
    rewrite app_nil_l.
    pose proof (sliceTo_sublist (Arr.sort scoreAfter new) (topKOf options)) as Hsub.
    pose proof (sort_perm scoreAfter new) as Hperm.
    split.
    + apply sublist_length in Hsub. apply Permutation_length in Hperm. lia.
    + apply (Forall_of_sublist _ _ _ Hsub). by rewrite Hperm.
Qed.

End SearchFacts.

(** ** Chunk extraction *)

Section ChunkFacts.
Import Types Tokens Semantic SemanticVocabulary.

Lemma chunkText_spec (t : option string) (s : string) :
  chunkText t = Some s -> 10 < Str.len s /\ Str.trim s = s.
Proof.
  unfold chunkText. destruct t as [[|c rest]|]; try done.
  destruct (Z.ltb_spec 10 (Str.len (Str.trim (String c rest)))); [|done].
  intros [= <-]. split; [done|apply trim_idem].
Qed.

Lemma childChunks_spec (cs : list StructuredContent) : forall idx l idx',
  childChunks cs idx = (l, idx') ->
  map index l = seqZ idx (Z.of_nat (length l))
  /\ idx' = idx + Z.of_nat (length l)
  /\ Forall wellFormedChunk l.
Proof.
  induction cs as [|child cs IH]; intros idx l idx'; cbn [childChunks].
  - intros [= <- <-]. split; [done|]. split; [simpl; lia|constructor].
  - destruct (chunkText (Types.text child)) as [t|] eqn:Ht; [|apply IH].
    destruct (childChunks cs (idx + 1)) as [rest idx1] eqn:Hrest.
    intros [= <- <-]. destruct (IH _ _ _ Hrest) as (Hidx & -> & Hwf).
    apply chunkText_spec in Ht as [Hlen Htrim].
    split; [|split].
    + cbn [map length index]. rewrite Hidx, (seqZ_cons idx) by lia. f_equal.
      f_equal; lia.
    + cbn [length]. lia.
    + constructor; [done|exact Hwf].
Qed.

Lemma extractChunksFrom_spec (nodes : list StructuredContent) : forall idx,
  let l := extractChunksFrom nodes idx in
  map index l = seqZ idx (Z.of_nat (length l)) /\ Forall wellFormedChunk l.
Proof.
  induction nodes as [|item nodes IH]; intros idx; cbn [extractChunksFrom]; [by split|].
  cbv zeta.
  destruct (chunkText (Types.text item)) as [t|] eqn:Ht.
  - destruct (childChunks (children item) (idx + 1)) as [kids idx2] eqn:Hkids.
    destruct (childChunks_spec _ _ _ _ Hkids) as (Hk & -> & Hkwf).
    destruct (IH (idx + 1 + Z.of_nat (length kids))) as [Hr Hrwf].
    apply chunkText_spec in Ht as [Hlen Htrim].
    split.
    + cbn [app map index]. rewrite map_app, Hk, Hr.
      cbn [length]. rewrite length_app, (seqZ_cons idx) by lia. f_equal.
      replace (Z.pred (Z.of_nat (S (length kids + length (extractChunksFrom nodes
                 (idx + 1 + Z.of_nat (length kids)))))))
        with (Z.of_nat (length kids)
              + Z.of_nat (length (extractChunksFrom nodes (idx + 1 + Z.of_nat (length kids)))))
        by lia.
      rewrite seqZ_app by lia. by replace (Z.succ idx) with (idx + 1) by lia.
    + constructor; [done|]. apply Forall_app. by split.
  - destruct (childChunks (children item) idx) as [kids idx2] eqn:Hkids.
    destruct (childChunks_spec _ _ _ _ Hkids) as (Hk & -> & Hkwf).
    destruct (IH (idx + Z.of_nat (length kids))) as [Hr Hrwf].
    split.
    + cbn [app]. rewrite map_app, Hk, Hr, length_app, Nat2Z.inj_add.
      rewrite seqZ_app by lia. done.
    + cbn [app]. apply Forall_app. by split.
Qed.

(** X24. The chunks that [extractChunks] and
    [extractChunksFromText] build are numbered 0, 1, 2, ... in order, and
    each is a trimmed text of more than ten code units without an
    embedding. *)
Theorem chunks_are_numbered_and_trimmed (content : Content) :
  let chunks := chunksOf content in
  map index chunks = seqZ 0 (Z.of_nat (length chunks))
  /\ Forall wellFormedChunk chunks.
Proof.
  destruct content as [nodes|s]; cbn [chunksOf].
  - apply extractChunksFrom_spec.
  - unfold extractChunksFromText.
    set (ps := List.filter (fun p => 10 <? Str.len (Str.trim p)) (Str.splitParagraphs s)).
    assert (Forall (fun p => 10 < Str.len (Str.trim p)) ps) as Hps.
    { apply Forall_forall. intros p Hp. apply list_elem_of_In, filter_In in Hp as [_ Hp].
      by apply Z.ltb_lt. }
    clearbody ps. split.
    + rewrite length_imap.
      assert (forall off, map index (imap (fun i p => mkChunk (Str.trim p) (Z.of_nat (off + i))
                                                        (Some "paragraph") None) ps)
                          = seqZ (Z.of_nat off) (Z.of_nat (length ps))) as Hoff.
      { clear Hps. induction ps as [|p ps IH]; intros off; [done|].
        cbn [imap map index length]. rewrite (seqZ_cons (Z.of_nat off)) by lia.
        f_equal; [f_equal; lia|].
        replace (Z.succ (Z.of_nat off)) with (Z.of_nat (S off)) by lia.
        replace (Z.pred (Z.of_nat (S (length ps)))) with (Z.of_nat (length ps)) by lia.
        rewrite <- IH. f_equal. apply imap_ext. intros i x _. simpl. do 2 f_equal. lia. }
      apply (Hoff 0%nat).
    + apply Forall_forall. intros c Hc.
      apply elem_of_lookup_imap in Hc as (i & p & -> & Hp).
      rewrite Forall_forall in Hps. specialize (Hps p (list_elem_of_lookup_2 _ _ _ Hp)).
      split; [done|]. split; [apply trim_idem|done].
Qed.

End ChunkFacts.

Section HtmlChunkFacts.
Import Types Errors Semantic SemanticVocabulary.

Lemma tight_trim (s : string) : tight s -> Str.trim s = s.
Proof. intros [Hh He]. unfold Str.trim. by rewrite (trimStart_fixed _ Hh). Qed.

Lemma trim_tight (s : string) : Str.trim s <> EmptyString -> tight (Str.trim s).
Proof.
  unfold Str.trim. intros Hne.
  destruct (trimStart_head s) as [Hs|Hh]; [by rewrite Hs in Hne|].
  destruct (trimEnd_head _ Hh) as [He|Hh']; [done|].
  split; [done|apply trimEnd_idem].
Qed.

Lemma trimEnd_app (a b : string) :
  Str.trimEnd b <> EmptyString -> Str.trimEnd (a +:+ b) = a +:+ Str.trimEnd b.
Proof.
  intros Hb. induction a as [|c a IH]; [done|].
  change (String c a +:+ b) with (String c (a +:+ b)).
  change (String c a +:+ Str.trimEnd b) with (String c (a +:+ Str.trimEnd b)).
  cbn [Str.trimEnd]. rewrite IH.
  destruct (a +:+ Str.trimEnd b) eqn:Hab; [|done].
  destruct a; [|done]. by destruct (Str.trimEnd b).
Qed.

Lemma tight_nonempty (s : string) : tight s -> s <> EmptyString.
Proof. intros [Hh _] ->. done. Qed.

Lemma tight_join (a b : string) : tight a -> tight b -> tight (a +:+ " " +:+ b).
Proof.
  intros [Ha Hae] [Hb Hbe]. split.
  - destruct a as [|c a]; [done|]. done.
  - assert (Str.trimEnd (" " +:+ b) = " " +:+ b) as Hsp.
    { rewrite trimEnd_app; [by rewrite Hbe|]. rewrite Hbe. by destruct b. }
    rewrite trimEnd_app; [by rewrite Hsp|]. by rewrite Hsp.
Qed.

Lemma join_cons_eq (sep a : string) (X Y : list string) :
  (X = [] <-> Y = []) -> Str.join sep X = Str.join sep Y ->
  Str.join sep (a :: X) = Str.join sep (a :: Y).
Proof.
  intros Hnil Heq. destruct X as [|x X], Y as [|y Y]; [done| | |].
  - by destruct Hnil as [Hnil _]; specialize (Hnil eq_refl).
  - by destruct Hnil as [_ Hnil]; specialize (Hnil eq_refl).
  - cbn [Str.join] in *. by rewrite Heq.
Qed.

Lemma join_merge (sep a b : string) (rest : list string) :
  Str.join sep ((a +:+ sep +:+ b) :: rest) = Str.join sep (a :: b :: rest).
Proof.
  destruct rest as [|r rest]; [done|].
  cbn [Str.join]. by rewrite !str_app_assoc.
Qed.

Lemma seqZ_S (idx : Z) (n : nat) :
  seqZ idx (Z.of_nat (S n)) = idx :: seqZ (idx + 1) (Z.of_nat n).
Proof.
  rewrite (seqZ_cons idx) by lia. f_equal.
  replace (Z.succ idx) with (idx + 1) by lia.
  by replace (Z.pred (Z.of_nat (S n))) with (Z.of_nat n) by lia.
Qed.

(** The grouping loop: what it appends to [chunks]. *)
Lemma groupLines_spec (lines : list string) : forall chunks cur idx,
  Forall lineOk lines ->
  cur = EmptyString \/ lineOk cur ->
  exists new,
    groupLines lines chunks cur idx = chunks ++ new
    /\ map index new = seqZ idx (Z.of_nat (length new))
    /\ Forall (fun c => wellFormedChunk c /\ type c = Some "text") new
    /\ (new = [] <-> pending cur lines = [])
    /\ Str.join " " (map text new) = Str.join " " (pending cur lines).
Proof.
  assert (forall t idx, lineOk t ->
            wellFormedChunk (textChunk t idx) /\ type (textChunk t idx) = Some "text")
    as Hchunk.
  { intros t idx [Ht Hlen]. split; [|done]. split; [done|]. split; [|done].
    by apply tight_trim. }
  assert (forall t ls, lineOk t -> pending t ls = t :: ls) as Hpend.
  { intros t ls [[Hh _] _]. by destruct t. }
  induction lines as [|line rest IH]; intros chunks cur idx Hlines Hcur; cbn [groupLines].
  - destruct Hcur as [->|Hok].
    + exists []. rewrite app_nil_r. by repeat split.
    + pose proof Hok as [Ht Hlen]. destruct (Z.ltb_spec 10 (Str.len cur)); [|lia].
      rewrite (tight_trim _ Ht). exists [textChunk cur idx].
      split; [done|]. split; [done|].
      split; [constructor; [by apply Hchunk|constructor]|].
      rewrite (Hpend _ _ Hok). by split.
  - apply Forall_cons in Hlines as [Hline Hrest]. pose proof Hline as [Hlt Hllen].
    destruct (Z.ltb_spec 50 (Str.len line)) as [Hlong|Hshort].
    + destruct Hcur as [->|Hok].
      * change (10 <? Str.len EmptyString) with false. cbv iota.
        destruct (IH (chunks ++ [textChunk line idx]) EmptyString (idx + 1) Hrest)
          as (new & -> & Hidx & Hwf & Hnil & Hjoin); [by left|].
        exists (textChunk line idx :: new). rewrite <- app_assoc.
        split; [done|]. split.
        { cbn [map length index textChunk]. by rewrite Hidx, seqZ_S. }
        split; [constructor; [by apply Hchunk|done]|].
        split; [done|]. cbn [pending map text textChunk] in *.
        apply join_cons_eq; [|done]. rewrite <- Hnil. split; [apply map_eq_nil|by intros ->].
      * pose proof Hok as [Ht Hlen]. destruct (Z.ltb_spec 10 (Str.len cur)); [|lia].
        rewrite (tight_trim _ Ht).
        destruct (IH (chunks ++ [textChunk cur idx; textChunk line (idx + 1)])
                    EmptyString (idx + 2) Hrest)
          as (new & -> & Hidx & Hwf & Hnil & Hjoin); [by left|].
        exists (textChunk cur idx :: textChunk line (idx + 1) :: new). rewrite <- app_assoc.
        split; [done|]. split.
        { cbn [map length index textChunk]. rewrite Hidx, !seqZ_S.
          by replace (idx + 1 + 1) with (idx + 2) by lia. }
        split; [constructor; [by apply Hchunk|constructor; [by apply Hchunk|done]]|].
        rewrite (Hpend _ _ Hok). split; [done|]. cbn [pending map text textChunk] in *.
        apply join_cons_eq; [done|]. apply join_cons_eq; [|done].
        rewrite <- Hnil. split; [apply map_eq_nil|by intros ->].
    + cbv zeta.
      set (grown := cur +:+ match cur with EmptyString => EmptyString | _ => " " end +:+ line).
      assert (lineOk grown
              /\ Str.join " " (grown :: rest) = Str.join " " (pending cur (line :: rest)))
        as [Hgrown Hsame].
      { destruct Hcur as [->|Hok]; [done|].
        pose proof Hok as [[Hh He] Hlen].
        assert (grown = cur +:+ " " +:+ line) as -> by (subst grown; by destruct cur).
        split; [split; [by apply tight_join|]|].
        - rewrite !len_app. pose proof (len_nonneg (" " +:+ line)). rewrite len_app in *. lia.
        - rewrite (Hpend _ _ Hok). apply join_merge. }
      clearbody grown. pose proof Hgrown as [Hgt Hglen].
      assert (pending cur (line :: rest) <> []) as Hsome.
      { destruct Hcur as [->|Hok]; [done|]. by rewrite (Hpend _ _ Hok). }
      destruct (Z.ltb_spec 100 (Str.len grown)).
      * rewrite (tight_trim _ Hgt).
        destruct (IH (chunks ++ [textChunk grown idx]) EmptyString (idx + 1) Hrest)
          as (new & -> & Hidx & Hwf & Hnil & Hjoin); [by left|].
        exists (textChunk grown idx :: new). rewrite <- app_assoc.
        split; [done|]. split.
        { cbn [map length index textChunk]. by rewrite Hidx, seqZ_S. }
        split; [constructor; [by apply Hchunk|done]|].
        split; [done|]. rewrite <- Hsame. cbn [pending map text textChunk] in *.
        apply join_cons_eq; [|done]. rewrite <- Hnil. split; [apply map_eq_nil|by intros ->].
      * destruct (IH chunks grown idx Hrest) as (new & -> & Hidx & Hwf & Hnil & Hjoin);
          [by right|].
        exists new. split; [done|]. split; [done|]. split; [done|].
        rewrite (Hpend _ _ Hgrown) in Hnil, Hjoin. split; [|by rewrite Hjoin].
        split; [intros Hn; by apply Hnil in Hn|done].
Qed.

Lemma textLines_ok (extractAllTextFromHtml : string -> string) (html : string) :
  Forall lineOk (textLines extractAllTextFromHtml html).
Proof.
  apply Forall_forall. intros l Hl. unfold textLines in Hl.
  apply list_elem_of_In, filter_In in Hl as [Hmap Hlen].
  apply in_map_iff in Hmap as (x & <- & _). apply Z.ltb_lt in Hlen.
  split; [|done]. apply trim_tight. intros Hnil. by rewrite Hnil in Hlen.
Qed.

(** X25. The chunks of [extractChunksFromHtml] are numbered
    0, 1, 2, ... in order, and each is of type [text] with a trimmed text
    of more than ten code units. *)
Theorem html_chunks_are_numbered_text (extractAllTextFromHtml : string -> string)
    (html : string) :
  let chunks := extractChunksFromHtml extractAllTextFromHtml html in
  map index chunks = seqZ 0 (Z.of_nat (length chunks))
  /\ Forall (fun c => wellFormedChunk c /\ type c = Some "text") chunks.
Proof.
  unfold extractChunksFromHtml.
  destruct (groupLines_spec (textLines extractAllTextFromHtml html) [] EmptyString 0
              (textLines_ok _ _)) as (new & -> & Hidx & Hwf & _); [by left|].
  by rewrite app_nil_l.
Qed.

(** X26. [extractChunksFromHtml] loses nothing: the texts of its
    chunks, joined by blanks, are the lines of the document (trimmed,
    longer than ten) joined by blanks, in the same order. *)
Theorem html_chunks_keep_every_line (extractAllTextFromHtml : string -> string)
    (html : string) :
  Str.join " " (map text (extractChunksFromHtml extractAllTextFromHtml html))
  = Str.join " " (textLines extractAllTextFromHtml html).
Proof.
  unfold extractChunksFromHtml.
  destruct (groupLines_spec (textLines extractAllTextFromHtml html) [] EmptyString 0
              (textLines_ok _ _)) as (new & -> & _ & _ & _ & Hjoin); [by left|].
  by rewrite app_nil_l.
Qed.


End HtmlChunkFacts.

(** ** The two filters *)

Section FilterFacts.
Import Types Errors Tokens Semantic SemanticVocabulary.
Variable extractAllTextFromHtml : string -> string.
Variable extractor : string -> Vector.

(** What both filters do once the chunks are extracted. *)
Lemma filter_search (query : string) (chunks : list ContentChunk)
    (options : option FilterOptions) (calls calls' : Calls)
    (found : list SemanticSearchResult) :
  semanticSearch extractor query chunks (option_map searchOptions options) calls
  = (calls', Ok found) ->
  (length found <= length chunks)%nat
  /\ Forall (fun r => chunk r ∈ chunks) found
  /\ calls' = calls ++ match chunks with [] => [] | _ :: _ => query :: map text chunks end.
Proof.
  intros Hrun. pose proof (semanticSearch_provenance _ _ _ _ _ _ _ Hrun) as [Hlen Hfrom].
  split; [done|]. split.
  - eapply Forall_impl; [exact Hfrom|]. intros r (j & v & Hj & _).
    by eapply list_elem_of_lookup_2.
  - destruct chunks as [|c chunks]; [simpl in Hrun; rewrite app_nil_r; congruence|].
    rewrite semanticSearch_unfold in Hrun by done. injection Hrun as <- _.
    assert (usesPrecomputed (c :: chunks) (option_map searchOptions options) = false) as ->
      by (unfold usesPrecomputed; by destruct options).
    done.
Qed.

(** X27. A successful [filterByQuery] reports the number of
    chunks of the content as the total, at most that many matches, only
    chunks of the content as results, and calls the embedding model on the
    query and on every chunk, or not at all when the content has no
    chunk. *)
Theorem filterByQuery_accounting (content : Content) (query : string)
    (options : option FilterOptions) (calls calls' : Calls) (res : FilterResult) :
  filterByQuery extractor content query options calls = (calls', Ok res) ->
  0 <= matchedChunks res <= totalChunks res
  /\ totalChunks res = Z.of_nat (length (chunksOf content))
  /\ Forall (fun r => chunk r ∈ chunksOf content) (results res)
  /\ calls' = calls ++ match chunksOf content with
                       | [] => []
                       | _ :: _ => query :: map text (chunksOf content)
                       end.
Proof.
  unfold filterByQuery. destruct (chunksOf content) as [|c chunks] eqn:Hchunks.
  - intros [= <- <-]. simpl. rewrite app_nil_r. split; [lia|]. split; [done|].
    split; [constructor|done].
  - destruct (semanticSearch _ _ _ _ _) as [calls1 [found|e]] eqn:Hrun; [|done].
    intros [= <- <-]. apply filter_search in Hrun as (Hlen & Hfrom & ->).
    cbn [matchedChunks totalChunks results]. cbn [length] in Hlen. split; [lia|]. done.
Qed.


End FilterFacts.

(** ** The further properties at concrete inputs *)

Section Scenes.
Import Types Errors Markup Tokens Engine Semantic Examples.
Import TokensVocabulary EngineVocabulary SemanticVocabulary Scenarios.

(** X3 at a concrete input: without the indicator and with a budget of
    10 tokens, the title is kept. *)
Lemma truncateContent_keeps_top_priority_witness :
  10 < estimate (Nodes titleAndParagraph)
  /\ estimateTokens (getContentText titleNode) + reserveOf noIndicator <= 10
  /\ exists out,
       content (truncateContent titleAndParagraph 10 noIndicator) = Nodes out
       /\ titleNode ∈ out.
Proof.
  assert (10 < estimate (Nodes titleAndParagraph)) as Hover by (vm_compute; reflexivity).
  assert (estimateTokens (getContentText titleNode) + reserveOf noIndicator <= 10) as Hfits
    by (vm_compute; discriminate).
  split; [exact Hover|]. split; [exact Hfits|].
  apply (truncateContent_keeps_top_priority titleAndParagraph 10 noIndicator 0 titleNode
           Hover eq_refl Hfits).
  intros [|[|j]] y Hj Hne; [done| |done].
  injection Hj as <-. left. vm_compute. reflexivity.
Defined.

(** X4 at a concrete input: a budget of 5 tokens. *)
Lemma truncateContent_accounting_witness :
  5 < estimate (Nodes titleAndParagraph)
  /\ exists kept,
       kept `sublist_of` titleAndParagraph
       /\ originalTokens (truncateContent titleAndParagraph 5 None)
          = estimate (Nodes titleAndParagraph)
       /\ itemsOmitted (truncateContent titleAndParagraph 5 None)
          = Z.of_nat (length titleAndParagraph) - Z.of_nat (length kept)
       /\ ((content (truncateContent titleAndParagraph 5 None) = Nodes kept
            /\ returnedTokens (truncateContent titleAndParagraph 5 None)
               = estimate (Nodes kept))
           \/ (content (truncateContent titleAndParagraph 5 None)
               = Nodes (kept ++ [indicatorNode
                                   (itemsOmitted (truncateContent titleAndParagraph 5 None))])
               /\ returnedTokens (truncateContent titleAndParagraph 5 None)
                  = estimate (Nodes kept) + 20
               /\ 0 < itemsOmitted (truncateContent titleAndParagraph 5 None))).
Proof.
  assert (5 < estimate (Nodes titleAndParagraph)) as Hover by (vm_compute; reflexivity).
  split; [exact Hover|].
  exact (truncateContent_accounting titleAndParagraph 5 None Hover).
Defined.

(** X5 at a concrete input: paragraphs listed, headings not. *)
Lemma custom_priority_outranks_defaults_witness :
  typeName (Types.type paragraphNode) ∈ ["paragraph"]
  /\ (typeName (Types.type titleNode) ∉ ["paragraph"])
  /\ (effectivePriority paragraphsFirst titleNode <= 100
      < effectivePriority paragraphsFirst paragraphNode)
  /\ exists idx, ["paragraph"] !! idx = Some (typeName (Types.type paragraphNode))
                 /\ effectivePriority paragraphsFirst paragraphNode = 1000 - Z.of_nat idx.
Proof.
  assert (typeName (Types.type paragraphNode) ∈ ["paragraph"]) as Hin by (simpl; left).
  assert (typeName (Types.type titleNode) ∉ ["paragraph"]) as Hout.
  { simpl. intros H. apply list_elem_of_singleton in H. discriminate. }
  assert (length ["paragraph"] <= 900)%nat as Hlen by (simpl; lia).
  split; [exact Hin|]. split; [exact Hout|].
  exact (custom_priority_outranks_defaults paragraphsFirst ["paragraph"]
           paragraphNode titleNode eq_refl Hlen Hin Hout).
Defined.

(** X6 at a concrete input: the essay under a budget of 20 tokens. *)
Lemma truncateText_end_within_budget_witness :
  20 < estimateTokens essay
  /\ truncated (truncateText essay 20 (inMode ModeEnd)) = true
  /\ content (truncateText essay 20 (inMode ModeEnd))
     = Text (Str.take (Z.to_nat (4 * (20 - estimateTokens (indicatorOf (inMode ModeEnd)))))
                      essay
             +:+ indicatorOf (inMode ModeEnd))
  /\ returnedTokens (truncateText essay 20 (inMode ModeEnd)) <= 20.
Proof.
  assert (20 < estimateTokens essay) as Hover by (vm_compute; reflexivity).
  assert (estimateTokens (indicatorOf (inMode ModeEnd)) <= 20) as Hind
    by (vm_compute; discriminate).
  split; [exact Hover|].
  exact (truncateText_end_within_budget essay 20 (inMode ModeEnd) eq_refl Hover Hind).
Defined.

(** X7 at a concrete input: the same text and budget in mode [middle]. *)
Lemma truncateText_middle_overshoots_witness :
  20 < estimateTokens essay
  /\ truncated (truncateText essay 20 (inMode ModeMiddle)) = true
  /\ 20 < returnedTokens (truncateText essay 20 (inMode ModeMiddle))
  /\ (5 < 20 -> returnedTokens (truncateText essay 20 (inMode ModeMiddle)) = 20 + 3).
Proof.
  assert (20 < estimateTokens essay) as Hover by (vm_compute; reflexivity).
  split; [exact Hover|].
  exact (truncateText_middle_overshoots essay 20 (inMode ModeMiddle) eq_refl eq_refl Hover).
Defined.

(** X8 at a concrete input: the same text and budget in mode [smart]. *)
Lemma truncateText_smart_whole_paragraphs_witness :
  20 < estimateTokens essay
  /\ exists kept,
       kept `prefix_of` Str.splitParagraphs essay
       /\ content (truncateText essay 20 (inMode ModeSmart))
          = Text (Str.trim (blocks kept) +:+ indicatorOf (inMode ModeSmart))
       /\ returnedTokens (truncateText essay 20 (inMode ModeSmart))
          <= Z.max 20 (estimateTokens (indicatorOf (inMode ModeSmart))).
Proof.
  assert (20 < estimateTokens essay) as Hover by (vm_compute; reflexivity).
  split; [exact Hover|].
  exact (truncateText_smart_whole_paragraphs essay 20 (inMode ModeSmart) eq_refl Hover).
Defined.

(** X10 at a concrete input: the static page served with status 200. *)
Lemma tier_page_comes_from_response_witness :
  attemptResult schemeOf (alwaysResponds 200 staticPage) 30000 CHEERIO "http://example.com/"
  = Ok (mkPage "http://example.com/" staticPage 200 CHEERIO)
  /\ statusCode (mkPage "http://example.com/" staticPage 200 CHEERIO) < 400
  /\ tierUsed (mkPage "http://example.com/" staticPage 200 CHEERIO) = CHEERIO.
Proof.
  assert (attemptResult schemeOf (alwaysResponds 200 staticPage) 30000 CHEERIO
            "http://example.com/"
          = Ok (mkPage "http://example.com/" staticPage 200 CHEERIO)) as Hok
    by (vm_compute; reflexivity).
  split; [exact Hok|].
  destruct (tier_page_comes_from_response schemeOf (alwaysResponds 200 staticPage)
              30000 CHEERIO "http://example.com/" _ Hok) as (_ & _ & _ & Hstatus & Htier).
  split; [exact Hstatus|exact Htier].
Defined.

(** X11 at a concrete input: a request that the platform aborts. *)
Lemma platform_failure_is_classified_and_escalates_witness :
  attemptResult schemeOf (alwaysThrows "AbortError" "The operation was aborted")
    30000 CHEERIO "http://example.com/"
  = Err (ThrownBrowser (timeoutError "http://example.com/" 30000))
  /\ escalates (attemptResult schemeOf (alwaysThrows "AbortError" "The operation was aborted")
                  30000 CHEERIO "http://example.com/") CHEERIO = true.
Proof.
  assert (1 <= CHEERIO <= 3) as Htier by (vm_compute; split; discriminate).
  destruct (platform_failure_is_classified_and_escalates schemeOf
              (alwaysThrows "AbortError" "The operation was aborted")
              30000 CHEERIO "http://example.com/" "AbortError" "The operation was aborted"
              Htier eq_refl eq_refl) as (Hres & _ & Hesc).
  split; [exact Hres|exact Hesc].
Defined.

(** X12 at a concrete input: status 404 at the first tier. *)
Lemma static_tiers_report_http_status_witness :
  attemptResult schemeOf (alwaysResponds 404 EmptyString) 30000 CHEERIO "http://example.com/"
  = Err (ThrownBrowser (httpClientError 404 "http://example.com/"))
  /\ isHttpError (ThrownBrowser (httpClientError 404 "http://example.com/")) = true.
Proof.
  assert (400 <= 404) as Hst by lia.
  exact (static_tiers_report_http_status schemeOf (alwaysResponds 404 EmptyString)
           30000 CHEERIO "http://example.com/" "http://example.com/" EmptyString 404
           (or_introl eq_refl) eq_refl eq_refl Hst).
Defined.

(** X13 at a concrete input: status 404 at the third tier for a URL
    with [Timeout] in its path. *)
Lemma playwright_reports_http_status_as_timeout_witness :
  Str.includes "Timeout" "http://example.com/Timeout" = true
  /\ attemptResult schemeOf (alwaysResponds 404 EmptyString) 30000 PLAYWRIGHT
       "http://example.com/Timeout"
     = Err (ThrownBrowser (timeoutError "http://example.com/Timeout" 30000))
  /\ isHttpError (ThrownBrowser (timeoutError "http://example.com/Timeout" 30000)) = false.
Proof.
  assert (400 <= 404) as Hst by lia.
  assert (Str.includes "Timeout" "http://example.com/Timeout" = true) as Hinc
    by (vm_compute; reflexivity).
  split; [exact Hinc|].
  exact (playwright_reports_http_status_as_timeout schemeOf (alwaysResponds 404 EmptyString)
           30000 "http://example.com/Timeout" "http://example.com/Timeout" EmptyString 404
           eq_refl eq_refl Hst Hinc).
Defined.

(** X14 at a concrete input: the default engine on the script-only
    page. *)
Lemma fetch_outcome_is_last_tier_witness :
  maxTier defaultEngine <= 3
  /\ exists s' trace r,
       fetch schemeOf (alwaysResponds 200 scriptOnlyPage) defaultEngine "http://example.com/"
       = Some (s', trace, r)
       /\ match last (calledTiers trace) with
          | Some t =>
              getActiveTier s' = t
              /\ r = finalOutcome
                       (attemptResult schemeOf (alwaysResponds 200 scriptOnlyPage)
                          (timeout defaultEngine) t "http://example.com/") t
          | None =>
              r = Err (ThrownBrowser (if autoEscalate defaultEngine then exhausted
                                      else unknownTier (maxTier defaultEngine)))
          end.
Proof.
  assert (maxTier defaultEngine <= 3) as Hmax by (vm_compute; discriminate).
  split; [exact Hmax|].
  exact (fetch_outcome_is_last_tier schemeOf (alwaysResponds 200 scriptOnlyPage)
           defaultEngine "http://example.com/" Hmax).
Defined.

(** X16 at a concrete input: an engine fixed at the second tier. *)
Lemma fetch_without_escalation_calls_only_the_ceiling_witness :
  autoEscalate fixedAtJsdom = false
  /\ exists s' trace,
       fetch schemeOf (alwaysResponds 200 scriptOnlyPage) fixedAtJsdom "http://example.com/"
       = Some (s', trace,
               finalOutcome
                 (attemptResult schemeOf (alwaysResponds 200 scriptOnlyPage)
                    (timeout fixedAtJsdom) (maxTier fixedAtJsdom) "http://example.com/")
                 (maxTier fixedAtJsdom))
       /\ calledTiers trace
          = (if (1 <=? maxTier fixedAtJsdom) && (maxTier fixedAtJsdom <=? 3)
             then [maxTier fixedAtJsdom] else [])
       /\ getActiveTier s' = maxTier fixedAtJsdom.
Proof.
  split; [reflexivity|].
  exact (fetch_without_escalation_calls_only_the_ceiling schemeOf
           (alwaysResponds 200 scriptOnlyPage) fixedAtJsdom "http://example.com/" eq_refl).
Defined.

(** X17 at a concrete input: a ceiling of 0. *)
Lemma fetch_with_ceiling_below_first_tier_witness :
  autoEscalate noTier = true /\ maxTier noTier < 1
  /\ fetch schemeOf (alwaysResponds 200 staticPage) noTier "http://example.com/"
     = Some (withTier noTier CHEERIO, [], Err (ThrownBrowser exhausted)).
Proof.
  assert (maxTier noTier < 1) as Hmax by (vm_compute; reflexivity).
  split; [reflexivity|]. split; [exact Hmax|].
  exact (fetch_with_ceiling_below_first_tier schemeOf (alwaysResponds 200 staticPage)
           noTier "http://example.com/" eq_refl Hmax).
Defined.

(** X18 at a concrete input: the default engine on the static page. *)
Lemma escalation_rule_witness :
  autoEscalate defaultEngine = true
  /\ exists s' trace r,
       fetch schemeOf (alwaysResponds 200 staticPage) defaultEngine "http://example.com/"
       = Some (s', trace, r)
       /\ (CHEERIO ∈ calledTiers trace <-> 1 <= maxTier defaultEngine)
       /\ forall t, 1 <= t < 3 ->
            ((t + 1) ∈ calledTiers trace <->
             t ∈ calledTiers trace /\ t < maxTier defaultEngine
             /\ escalates (attemptResult schemeOf (alwaysResponds 200 staticPage)
                             (timeout defaultEngine) t "http://example.com/") t = true).
Proof.
  split; [reflexivity|].
  exact (escalation_rule schemeOf (alwaysResponds 200 staticPage) defaultEngine
           "http://example.com/" eq_refl).
Defined.

(** X19 at a concrete input: a page whose body has more than 100
    characters of text and whose [noscript] element has fewer than 50, so
    that none of the three signals fires and the short-body test of
    [needsJavaScript] fails: the escalation comes from the indicator list
    alone. *)
Lemma noscript_or_indicator_escalates_witness :
  elementMatch "noscript" longPageWithNoscript = Some "Scripts are off"
  /\ signalShortBody longPageWithNoscript = false
  /\ signalNoscript longPageWithNoscript = false
  /\ signalSpaRoot longPageWithNoscript = false
  /\ (exists body, elementMatch "body" longPageWithNoscript = Some body
                   /\ 100 <= Str.len (visibleBodyText body))
  /\ shouldEscalate longPageWithNoscript CHEERIO = true.
Proof.
  assert (elementMatch "noscript" longPageWithNoscript = Some "Scripts are off") as Hm
    by (vm_compute; reflexivity).
  split; [exact Hm|]. split; [vm_compute; reflexivity|].
  split; [vm_compute; reflexivity|]. split; [vm_compute; reflexivity|].
  split; [eexists; split; [vm_compute; reflexivity|vm_compute; discriminate]|].
  exact (noscript_or_indicator_escalates longPageWithNoscript
           (or_intror (ex_intro _ "Scripts are off" Hm))).
Defined.

(** X23 at a concrete input: the search over the three chunks of the
    store. *)
Lemma semanticSearch_results_are_scored_chunks_witness :
  semanticSearch exampleExtractor "How much does it cost?" storeChunks topTwo []
  = (storeSearch.1, Ok storeFound)
  /\ (length storeFound <= length storeChunks)%nat
  /\ Forall (scoredFrom (exampleExtractor "How much does it cost?") storeChunks
               (embeddingsFor exampleExtractor storeChunks topTwo))
            storeFound.
Proof.
  assert (semanticSearch exampleExtractor "How much does it cost?" storeChunks topTwo []
          = (storeSearch.1, Ok storeFound)) as Hrun by (vm_compute; reflexivity).
  split; [exact Hrun|].
  exact (semanticSearch_results_are_scored_chunks exampleExtractor "How much does it cost?"
           storeChunks topTwo [] _ _ Hrun).
Defined.

(** X27 at a concrete input: the text of the store, filtered by the
    question about the price. *)
Lemma filterByQuery_accounting_witness :
  0 <= matchedChunks (resultOf (filterByQuery exampleExtractor (Text storeText)
                                  "How much does it cost?" None []))
    <= totalChunks (resultOf (filterByQuery exampleExtractor (Text storeText)
                                "How much does it cost?" None []))
  /\ totalChunks (resultOf (filterByQuery exampleExtractor (Text storeText)
                              "How much does it cost?" None []))
     = Z.of_nat (length (chunksOf (Text storeText))).
Proof.
  assert (filterByQuery exampleExtractor (Text storeText) "How much does it cost?" None []
          = ((filterByQuery exampleExtractor (Text storeText)
                "How much does it cost?" None []).1,
             Ok (resultOf (filterByQuery exampleExtractor (Text storeText)
                             "How much does it cost?" None [])))) as Hrun
    by (vm_compute; reflexivity).
  destruct (filterByQuery_accounting exampleExtractor (Text storeText)
              "How much does it cost?" None [] _ _ Hrun) as (Hmatched & Htotal & _).
  split; [exact Hmatched|exact Htotal].
Defined.


End Scenes.
